(** * DARC toolbox: Bayesian adaptive design core

    A shallow embedding of [bad/model.py] (the [Model] base class) and of
    [darc/designs.py] (the [DARCDesignGenerator] and its design filters),
    followed by the properties established about them.

    Conventions.
    - Python exceptions are values of [exn]; a computation that can raise
      returns [result A].
    - pandas [DataFrame] objects are mutable and passed by reference: in the
      part that embeds [bad/model.py] they live in a heap addressed by
      locations, and every method is a state transformer that keeps the heap
      it leaves behind also when it raises.
    - numpy / scipy floating point routines ([np.log], [+], [Series.median],
      [norm.fit] ...) are not interpreted: they are the operations of the
      class [FloatOps].
    - design attributes and predicted probabilities in [darc/designs.py] are
      only compared and multiplied; they are rationals there. *)

From Stdlib Require Import String Bool Arith PeanoNat ZArith QArith Qabs Lia List Permutation.
Import ListNotations.
Close Scope Q_scope.
Open Scope string_scope.
Open Scope list_scope.

Set Implicit Arguments.

(** ** Python exceptions and results *)

Inductive exn : Type :=
| ValueError (msg : string)
| KeyError (key : string)
| AttributeError (attr : string)
| IndexError (msg : string)
| AssertionError (msg : string)
| UnboundLocalError (name : string)
| BadReference (l : nat).   (* a location that was never allocated; no Python program has one *)

Inductive result (A : Type) : Type :=
| OK (a : A)
| Err (e : exn).

Arguments OK {A} a.
Arguments Err {A} e.

Definition rbind {A B} (r : result A) (k : A -> result B) : result B :=
  match r with
  | OK a => k a
  | Err e => Err e
  end.

Declare Scope result_scope.
Delimit Scope result_scope with res.
Notation "x <- c ;; k" := (rbind c (fun x => k))
  (at level 61, c at next level, right associativity) : result_scope.

(** The message of [raise ValueError('Failing to identify response')]. *)
Definition ResponseLabelError : exn := ValueError "Failing to identify response".

(** ** Generic list helpers *)

(** [l[i] = x] on a Python list / numpy row known to have index [i]. *)
Fixpoint set_nth {A} (i : nat) (x : A) (l : list A) {struct l} : list A :=
  match l, i with
  | [], _ => []
  | _ :: t, O => x :: t
  | h :: t, S j => h :: set_nth j x t
  end.

Fixpoint zip_with {A B C} (f : A -> B -> C) (l : list A) (m : list B) : list C :=
  match l, m with
  | a :: l', b :: m' => f a b :: zip_with f l' m'
  | _, _ => []
  end.

Fixpoint assoc {V} (k : string) (l : list (string * V)) : option V :=
  match l with
  | [] => None
  | (k', v) :: t => if String.eqb k k' then Some v else assoc k t
  end.

(** [d[k] = v] on an insertion-ordered mapping: replace in place, or append. *)
Fixpoint assoc_set {V} (k : string) (v : V) (l : list (string * V)) : list (string * V) :=
  match l with
  | [] => [(k, v)]
  | (k', v') :: t => if String.eqb k k' then (k, v) :: t else (k', v') :: assoc_set k v t
  end.

(** * Part I: [bad/model.py] *)

Module Model.

(** ** Floating point and statistics routines used by the model *)

Class FloatOps (num : Type) : Type := {
  fzero : num;                         (* 0.0 *)
  fone : num;                          (* 1.0 *)
  fadd : num -> num -> num;            (* + *)
  fsub : num -> num -> num;            (* - *)
  flog : num -> num;                   (* np.log *)
  fisnan : num -> bool;                (* np.isnan *)
  of_int : Z -> num;                   (* int -> float64 *)
  median : list num -> num;            (* Series.median() *)
  mean : list num -> num;              (* Series.mean() *)
  quantile : Q -> list num -> num;     (* Series.quantile(q) *)
  norm_fit_entropy : list num -> num   (* float(norm.entropy( *norm.fit(samples))) *)
}.

Declare Scope py_scope.
Delimit Scope py_scope with py.

Section WithFloats.

Context {num : Type} {F : FloatOps num}.

(** A cell of a [DataFrame]: a float, or a Python [int] object (the response
    column [R] is an object column of ints). *)
Inductive value : Type :=
| VFloat (x : num)
| VInt (z : Z).

Definition to_float (v : value) : num :=
  match v with
  | VFloat x => x
  | VInt z => of_int z
  end.

(** [v is n] for a small integer literal [n]: identity with the cached int
    object, which no float (and no other int) has. *)
Definition is_int (v : value) (n : Z) : bool :=
  match v with
  | VInt z => Z.eqb z n
  | VFloat _ => false
  end.

(** Column-major table: the row labels and the named columns, in order. *)
Record DataFrame : Type := {
  df_index : list Z;
  df_columns : list (string * list value)
}.

Definition nrows (f : DataFrame) : nat := length (df_index f).
Definition ncols (f : DataFrame) : nat := length (df_columns f).

(** Every column has one cell per row. *)
Definition well_formed (f : DataFrame) : Prop :=
  forall c, In c (df_columns f) -> length (snd c) = nrows f.

(** [f[key]] *)
Definition getitem (f : DataFrame) (key : string) : result (list value) :=
  match assoc key (df_columns f) with
  | Some c => OK c
  | None => Err (KeyError key)
  end.

(** [f.key] (attribute access to a column) *)
Definition getattr (f : DataFrame) (key : string) : result (list value) :=
  match assoc key (df_columns f) with
  | Some c => OK c
  | None => Err (AttributeError key)
  end.

(** [f[key] = values] for an array of values *)
Definition setitem (f : DataFrame) (key : string) (v : list value) : result DataFrame :=
  if Nat.eqb (length v) (nrows f)
  then OK {| df_index := df_index f; df_columns := assoc_set key v (df_columns f) |}
  else Err (ValueError "Length of values does not match length of index").

(** [f.take([i])]: the one-row frame at position [i] *)
Definition take1 (f : DataFrame) (i : nat) : result DataFrame :=
  match nth_error (df_index f) i with
  | Some lbl =>
      OK {| df_index := [lbl];
            df_columns := map (fun c => (fst c, firstn 1 (skipn i (snd c)))) (df_columns f) |}
  | None => Err (IndexError "indices are out-of-bounds")
  end.

(** Row [i] of a frame as floats (the cells that exist). *)
Definition row_values (f : DataFrame) (i : nat) : list num :=
  flat_map (fun c => match nth_error (snd c) i with
                     | Some v => [to_float v]
                     | None => []
                     end) (df_columns f).

(** [np.add.reduce] over one axis *)
Definition reduce_add (l : list num) : num :=
  match l with
  | [] => fzero
  | x :: t => fold_left fadd t x
  end.

(** [np.sum(frame, axis=1)]: pandas skips NaN cells *)
Definition sum_axis1_frame (f : DataFrame) : list num :=
  map (fun i => reduce_add (filter (fun x => negb (fisnan x)) (row_values f i)))
      (seq 0 (nrows f)).

(** [np.sum(matrix, axis=1)] on a row-major ndarray *)
Definition sum_axis1 (m : list (list num)) : list num := map reduce_add m.

(** [np.zeros((n, t))] *)
Definition zeros (n t : nat) : list (list num) := repeat (repeat fzero t) n.

(** [m[:, t] = v] with numpy broadcasting of [v] against the column *)
Definition set_column (m : list (list num)) (t : nat) (v : list num)
  : result (list (list num)) :=
  if Nat.eqb (length v) (length m)
  then OK (zip_with (fun row x => set_nth t x row) m v)
  else match v with
       | [x] => OK (map (set_nth t x) m)
       | _ => Err (ValueError "could not broadcast input array")
       end.

(** [ndarray + Series] of equal length *)
Definition vadd (a b : list num) : result (list num) :=
  if Nat.eqb (length a) (length b)
  then OK (zip_with fadd a b)
  else Err (ValueError "operands could not be broadcast together").

(** ** The model object *)

(** A frozen scipy distribution, as far as the model uses it. *)
Record distribution : Type := {
  logpdf : num -> num;
  dist_mean : num
}.

(** What a concrete subclass provides: the class attributes [prior] and
    [θ_fixed] and the abstract method [predictive_y]. *)
Record ModelClass : Type := {
  prior : list (string * distribution);
  θ_fixed : list (string * num);
  predictive_y : DataFrame -> DataFrame -> list num
}.

Definition loc := nat.

(** Instance attributes of a [Model] object. *)
Record instance : Type := {
  n_particles : nat;
  parameter_names : list string;
  θ : loc;
  θ_true : option loc
}.

(** The store: the [DataFrame] objects allocated so far and the model. *)
Record state : Type := {
  heap : list DataFrame;
  self : instance
}.

Definition M (A : Type) : Type := state -> result A * state.

Definition ret {A} (a : A) : M A := fun s => (OK a, s).
Definition raise {A} (e : exn) : M A := fun s => (Err e, s).
Definition bind {A B} (c : M A) (k : A -> M B) : M B :=
  fun s => match c s with
           | (OK a, s') => k a s'
           | (Err e, s') => (Err e, s')
           end.
Definition lift {A} (r : result A) : M A := fun s => (r, s).

Definition load (l : loc) : M DataFrame :=
  fun s => match nth_error (heap s) l with
           | Some f => (OK f, s)
           | None => (Err (BadReference l), s)
           end.

Definition alloc (f : DataFrame) : M loc :=
  fun s => (OK (length (heap s)), {| heap := heap s ++ [f]; self := self s |}).

Definition store (l : loc) (f : DataFrame) : M unit :=
  fun s => (OK tt, {| heap := set_nth l f (heap s); self := self s |}).

Definition get_self : M instance := fun s => (OK (self s), s).
Definition put_self (i : instance) : M unit :=
  fun s => (OK tt, {| heap := heap s; self := i |}).

Notation "x <~ c ;; k" := (bind c (fun x => k))
  (at level 61, c at next level, right associativity) : py_scope.
Notation "c ;;; k" := (bind c (fun _ => k))
  (at level 61, right associativity) : py_scope.
Local Open Scope py_scope.

(** [for x in xs: acc = body(x, acc)]; an exception leaves the loop. *)
Fixpoint for_each {A S} (xs : list A) (body : A -> S -> M S) (acc : S) : M S :=
  match xs with
  | [] => ret acc
  | x :: rest => acc' <~ body x acc ;; for_each rest body acc'
  end.

(** ** [Model.log_likelihood] *)

(** One pass of the loop over trials, on the local array [p_chose_B]. *)
Definition log_likelihood_trial (cls : ModelClass) (θ data : loc) (R : list value)
    (trial : nat) (p_chose_B : list (list num)) : M (list (list num)) :=
  fd <~ load data ;;
  td <~ lift (take1 fd trial) ;;
  trial_data <~ alloc td ;;
  r <~ lift (match nth_error R trial with
             | Some r => OK r
             | None => Err (IndexError "index out of bounds")
             end) ;;
  if is_int r 1 then
    fθ <~ load θ ;; ftd <~ load trial_data ;;
    lift (set_column p_chose_B trial (predictive_y cls fθ ftd))
  else if is_int r 0 then
    fθ <~ load θ ;; ftd <~ load trial_data ;;
    lift (set_column p_chose_B trial (map (fsub fone) (predictive_y cls fθ ftd)))
  else
    raise ResponseLabelError.

Definition log_likelihood (cls : ModelClass) (θ data : loc) : M (list num) :=
  fd <~ load data ;;
  let n_trials := nrows fd in
  fθ <~ load θ ;;
  let n_particles := nrows fθ in
  let p_chose_B := zeros n_particles n_trials in
  R <~ lift (getattr fd "R") ;;
  p_chose_B <~ for_each (seq 0 n_trials) (log_likelihood_trial cls θ data R) p_chose_B ;;
  ret (sum_axis1 (map (map flog) p_chose_B)).

(** ** [Model.log_prior_pdf] *)

Definition log_prior_pdf_key (cls : ModelClass) (θ log_prior : loc) (key : string)
    (_ : unit) : M unit :=
  d <~ lift (match assoc key (prior cls) with
             | Some d => OK d
             | None => Err (KeyError key)
             end) ;;
  fθ <~ load θ ;;
  x <~ lift (getitem fθ key) ;;
  flp <~ load log_prior ;;
  flp' <~ lift (setitem flp key (map (fun v => VFloat (logpdf d (to_float v))) x)) ;;
  store log_prior flp'.

Definition log_prior_pdf (cls : ModelClass) (θ : loc) : M (list num) :=
  fθ <~ load θ ;;
  log_prior <~ alloc fθ ;;                       (* copy.copy(θ) *)
  me <~ get_self ;;
  for_each (parameter_names me) (log_prior_pdf_key cls θ log_prior) tt ;;;
  flp <~ load log_prior ;;
  ret (sum_axis1_frame flp).

(** ** [Model.p_log_pdf] *)

Definition p_log_pdf (cls : ModelClass) (θ data : loc) : M (list num) :=
  ll <~ log_likelihood cls θ data ;;
  lp <~ log_prior_pdf cls θ ;;
  lift (vadd ll lp).

(** ** Projections of the particle population *)

(** The column frame that [to_frame()] builds before [.T] is not kept. *)
Definition get_θ_point_estimate : M loc :=
  me <~ get_self ;;
  fθ <~ load (θ me) ;;
  let median_series :=
    map (fun c => (fst c, median (map to_float (snd c)))) (df_columns fθ) in
  alloc {| df_index := [0%Z];
           df_columns := map (fun c => (fst c, [VFloat (snd c)])) median_series |}.

(** [self.θ[param_name]] as an array of floats *)
Definition θ_column (param_name : string) : M (list num) :=
  me <~ get_self ;;
  fθ <~ load (θ me) ;;
  c <~ lift (getitem fθ param_name) ;;
  ret (map to_float c).

Definition get_θ_entropy (param_name : string) : M num :=
  samples <~ θ_column param_name ;;
  ret (norm_fit_entropy samples).

(** [frame.add_prefix(p)] *)
Definition add_prefix (p : string) (f : DataFrame) : DataFrame :=
  {| df_index := df_index f;
     df_columns := map (fun c => (String.append p (fst c), snd c)) (df_columns f) |}.

Definition get_θ_summary_stats (param_name : string) : M loc :=
  entropy <~ get_θ_entropy param_name ;;
  c1 <~ θ_column param_name ;;
  c2 <~ θ_column param_name ;;
  c3 <~ θ_column param_name ;;
  c4 <~ θ_column param_name ;;
  c5 <~ θ_column param_name ;;
  c6 <~ θ_column param_name ;;
  summary_stats <~ alloc
    {| df_index := [0%Z];
       df_columns :=
         [("entropy", [VFloat entropy]);
          ("median", [VFloat (median c1)]);
          ("mean", [VFloat (mean c2)]);
          ("lower50", [VFloat (quantile (25 # 100) c3)]);
          ("upper50", [VFloat (quantile (75 # 100) c4)]);
          ("lower95", [VFloat (quantile (25 # 1000) c5)]);
          ("upper95", [VFloat (quantile (1 - (25 # 1000)) c6)])] |} ;;
  f <~ load summary_stats ;;
  alloc (add_prefix (String.append param_name "_") f).

(** ** [Model.generate_faux_true_params]: a method that does write [self]

    One pass of its loop, [θ_dict[key] = [self.prior[key].mean()]]; the
    method itself follows [from_dict] below. *)

Definition faux_true_key (cls : ModelClass) (key : string)
    (θ_dict : list (string * list value)) : M (list (string * list value)) :=
  match assoc key (prior cls) with
  | Some d => ret (assoc_set key [VFloat (dist_mean d)] θ_dict)
  | None => raise (KeyError key)
  end.

(** ** What a call may do to the store *)

(** [s'] has the same model attributes as [s] and every frame of [s], at
    the same location and with the same content; frames may have been
    allocated on top. *)
Definition unchanged (s s' : state) : Prop :=
  self s' = self s /\ exists fresh, heap s' = heap s ++ fresh.

(** [touches_above n c Q]: run from a heap of at least [n] frames, [c]
    leaves the model attributes and the first [n] frames alone, never
    shrinks the heap, and a returned value satisfies [Q]. *)
Definition touches_above {A} (n : nat) (c : M A) (Q : A -> Prop) : Prop :=
  forall s, n <= length (heap s) ->
    self (snd (c s)) = self s /\
    length (heap s) <= length (heap (snd (c s))) /\
    firstn n (heap (snd (c s))) = firstn n (heap s) /\
    match fst (c s) with OK a => Q a | Err _ => True end.

(** A response label is valid when it is the int 0 or the int 1. *)
Definition valid_response (r : value) : bool := is_int r 1 || is_int r 0.

(** The label at position [t] of the response column [R] is a valid one. *)
Definition valid_at (R : list value) (t : nat) : bool :=
  match nth_error R t with
  | Some r => valid_response r
  | None => false
  end.

(** The response is 1 or 0 as a number ([r == 1 or r == 0]), whatever
    object holds it: a label as the specification reads it. *)
Definition equals_label (r : value) : Prop :=
  match r with
  | VInt z => z = 1%Z \/ z = 0%Z
  | VFloat x => x = fone \/ x = fzero
  end.

(** The frames the references [θ] and [data] point to in [s]. *)
Definition points_to (θ data : loc) (fθ fd : DataFrame) (s : state) : Prop :=
  nth_error (heap s) θ = Some fθ /\ nth_error (heap s) data = Some fd.

End WithFloats.

Notation "x <~ c ;; k" := (bind c (fun x => k))
  (at level 61, c at next level, right associativity) : py_scope.
Notation "c ;;; k" := (bind c (fun _ => k))
  (at level 61, right associativity) : py_scope.

(** ** Construction: [Model.__init__] and [Model._sample_from_prior] *)

Section Construction.

Context {num : Type} {F : FloatOps num}.
Local Open Scope py_scope.

(** [dict.keys()] of an insertion-ordered mapping *)
Definition keys {V} (d : list (string * V)) : list string := map fst d.

(** [pd.DataFrame.from_dict(d)] for a dict of arrays: the arrays must have
    one length, which gives the range index. *)
Definition from_dict (d : list (string * list (@value num))) : result (@DataFrame num) :=
  match d with
  | [] => OK {| df_index := []; df_columns := [] |}
  | (_, c) :: _ =>
      if forallb (fun kc => Nat.eqb (length (snd kc)) (length c)) d
      then OK {| df_index := map Z.of_nat (seq 0 (length c)); df_columns := d |}
      else Err (ValueError "arrays must all be same length")
  end.

(** [rvs key size] stands for the array that [self.prior[key].rvs(size=size)]
    draws in this run. *)
Definition sample_key (cls : @ModelClass num) (rvs : string -> nat -> list num)
    (size : nat) (key : string) (particles_dict : list (string * list (@value num)))
  : @M num (list (string * list (@value num))) :=
  match assoc key (prior cls) with
  | Some _ => ret (assoc_set key (map VFloat (rvs key size)) particles_dict)
  | None => raise (KeyError key)
  end.

Definition _sample_from_prior (cls : @ModelClass num) (rvs : string -> nat -> list num)
  : @M num loc :=
  me <~ get_self ;;
  particles_dict <~
    for_each (parameter_names me) (sample_key cls rvs (n_particles me)) [] ;;
  f <~ lift (from_dict particles_dict) ;;
  alloc f.

(** [θ_true] is a class attribute and stays what it is. *)
Definition __init__ (cls : @ModelClass num) (rvs : string -> nat -> list num)
    (n_particles : nat) : @M num unit :=
  me <~ get_self ;;
  put_self {| Model.n_particles := n_particles;
              parameter_names := keys (prior cls);
              θ := θ me;
              θ_true := θ_true me |} ;;;
  l <~ _sample_from_prior cls rvs ;;
  me <~ get_self ;;
  put_self {| Model.n_particles := Model.n_particles me;
              parameter_names := parameter_names me;
              θ := l;
              θ_true := θ_true me |}.

(** ** [Model.generate_faux_true_params] *)

Definition generate_faux_true_params (cls : @ModelClass num) : @M num unit :=
  me <~ get_self ;;
  θ_dict <~ for_each (parameter_names me) (faux_true_key cls) [] ;;
  f <~ lift (from_dict θ_dict) ;;
  l <~ alloc f ;;
  me <~ get_self ;;
  put_self {| Model.n_particles := Model.n_particles me;
              parameter_names := parameter_names me;
              θ := θ me;
              θ_true := Some l |}.

(** ** Readings used to state what the methods compute *)

(** The column that the likelihood loop writes for trial [t]: the
    predicted probability of the recorded response. *)
Definition likelihood_column (cls : @ModelClass num) (fθ fd : @DataFrame num)
    (R : list (@value num)) (t : nat) : list num :=
  match take1 fd t, nth_error R t with
  | OK trial_data, Some r =>
      if is_int r 1 then predictive_y cls fθ trial_data
      else map (fsub fone) (predictive_y cls fθ trial_data)
  | _, _ => []
  end.

(** The log density of a cell of the column [key] under its prior. *)
Definition log_density (cls : @ModelClass num) (key : string) (v : @value num)
  : @value num :=
  match assoc key (prior cls) with
  | Some d => VFloat (logpdf d (to_float v))
  | None => v
  end.

(** A parameter name the prior loop can serve: it has a prior and a column. *)
Definition served (cls : @ModelClass num) (fθ : @DataFrame num) (key : string) : bool :=
  match assoc key (prior cls), assoc key (df_columns fθ) with
  | Some _, Some _ => true
  | _, _ => false
  end.

(** The frame that [log_prior_pdf] sums: the columns named in [names] hold
    log densities, the others the values of [θ]. *)
Definition log_prior_frame (cls : @ModelClass num) (names : list string)
    (fθ : @DataFrame num) : @DataFrame num :=
  {| df_index := df_index fθ;
     df_columns :=
       map (fun c => (fst c,
                      if existsb (String.eqb (fst c)) names
                      then map (log_density cls (fst c)) (snd c)
                      else snd c))
           (df_columns fθ) |}.

(** The mean of the prior of [key]. *)
Definition prior_mean (cls : @ModelClass num) (key : string) : num :=
  match assoc key (prior cls) with
  | Some d => dist_mean d
  | None => fzero
  end.

End Construction.

End Model.

(** * Part I bis: [darc/delayed_and_risky/models.py] *)

Module DelayedAndRisky.

Import Model.

(** The arithmetic the discount functions need beyond [FloatOps]. *)
Class FloatArith (num : Type) : Type := {
  fmul : num -> num -> num;            (* * *)
  fdiv : num -> num -> num;            (* / and np.divide *)
  fexp : num -> num                    (* np.exp *)
}.

Section WithFloats.

Context {num : Type} {F : FloatOps num} {A : FloatArith num}.
Local Open Scope result_scope.

(** A binary operation on two one-dimensional arrays under numpy
    broadcasting: equal lengths, or one array of length 1. *)
Definition broadcast2 (f : num -> num -> num) (a b : list num) : result (list num) :=
  if Nat.eqb (length a) (length b) then OK (zip_with f a b)
  else match a, b with
       | [x], _ => OK (map (f x) b)
       | _, [y] => OK (map (fun x => f x y) a)
       | _, _ => Err (ValueError "operands could not be broadcast together")
       end.

(** [frame[key].values] *)
Definition values (f : @DataFrame num) (key : string) : result (list num) :=
  c <- getitem f key ;; OK (map to_float c).

Definition prob_to_odds_against (probabilities : list num) : list num :=
  map (fun p => fdiv (fsub fone p) p) probabilities.

Definition odds_against_to_probs (odds : list num) : list num :=
  map (fun o => fdiv fone (fadd fone o)) odds.

(** [MultiplicativeHyperbolic._time_discount_func] *)
Definition _time_discount_func (delay : list num) (θ : @DataFrame num)
  : result (list num) :=
  logk <- values θ "logk" ;;
  let k := map fexp logk in
  k_delay <- broadcast2 fmul k delay ;;
  OK (map (fun x => fdiv fone (fadd fone x)) k_delay).

(** [MultiplicativeHyperbolic._odds_discount_func] *)
Definition _odds_discount_func (probabilities : list num) (θ : @DataFrame num)
  : result (list num) :=
  logh <- values θ "logh" ;;
  let h := map fexp logh in
  let odds_against := prob_to_odds_against probabilities in
  h_odds <- broadcast2 fmul h odds_against ;;
  OK (map (fun x => fdiv fone (fadd fone x)) h_odds).

(** One line of [calc_decision_variable]:
    [data[r].values * _time_discount_func(data[d].values, θ)
                    * _odds_discount_func(data[p].values, θ)] *)
Definition prospect_value (θ data : @DataFrame num) (r d p : string)
  : result (list num) :=
  reward <- values data r ;;
  delay <- values data d ;;
  time_discount <- _time_discount_func delay θ ;;
  discounted <- broadcast2 fmul reward time_discount ;;
  probabilities <- values data p ;;
  odds_discount <- _odds_discount_func probabilities θ ;;
  broadcast2 fmul discounted odds_discount.

(** [MultiplicativeHyperbolic.calc_decision_variable] *)
Definition calc_decision_variable (θ data : @DataFrame num) : result (list num) :=
  VA <- prospect_value θ data "RA" "DA" "PA" ;;
  VB <- prospect_value θ data "RB" "DB" "PB" ;;
  broadcast2 fsub VB VA.

(** ** The decision variable of one particle and one design *)

Definition discounted_value (logk logh reward delay p : num) : num :=
  fmul (fmul reward (fdiv fone (fadd fone (fmul (fexp logk) delay))))
       (fdiv fone (fadd fone (fmul (fexp logh) (fdiv (fsub fone p) p)))).

Definition decision_variable_at (logk logh ra da pa rb db pb : num) : num :=
  fsub (discounted_value logk logh rb db pb) (discounted_value logk logh ra da pa).

(** Row [i] of the column [key], or its only row when the frame has one. *)
Definition cell (f : @DataFrame num) (key : string) (i : nat) : num :=
  match assoc key (df_columns f) with
  | Some c => to_float (nth (if Nat.eqb (nrows f) 1 then 0 else i) c (VFloat fzero))
  | None => fzero
  end.

(** Shapes numpy can broadcast against each other, and the shape it gives. *)
Definition compatible (n m : nat) : bool :=
  Nat.eqb n m || Nat.eqb n 1 || Nat.eqb m 1.

Definition broadcast_length (n m : nat) : nat := if Nat.eqb n 1 then m else n.

(** The frame has the columns [names]. *)
Definition has_columns (f : @DataFrame num) (names : list string) : Prop :=
  forall key, In key names -> assoc key (df_columns f) <> None.

(** Entry [i] of an array as broadcasting reads it: an array of length 1
    is read at 0. *)
Definition bnth (a : list num) (i : nat) : num :=
  nth (if Nat.eqb (length a) 1 then 0 else i) a fzero.

(** An array that broadcasts to length [L]. *)
Definition shaped (L : nat) (a : list num) : Prop := length a = L \/ length a = 1.

End WithFloats.

End DelayedAndRisky.

(** * Part II: [darc/designs.py] *)

Module Designs.

Local Open Scope Q_scope.

(** Comparisons of numpy, as booleans. *)
Definition Qltb (x y : Q) : bool := negb (Qle_bool y x).
Definition Qgtb (x y : Q) : bool := Qltb y x.

(** [DEFAULT_DB]: delays in days, from one minute to 25 years. *)
Definition DEFAULT_DB : list Q :=
  map (fun x => x / 24 / 60) [1; 2; 5; 10; 15; 30; 45] ++
  map (fun x => x / 24) [1; 2; 3; 4; 5; 6; 7; 8; 9; 12] ++
  [1; 2; 3; 4; 5; 6; 7] ++
  map (fun x => x * 7) [2; 3; 4] ++
  map (fun x => x * 30) [3; 4; 5; 6; 8; 9] ++
  map (fun x => x * 365) [1; 2; 3; 4; 5; 6; 7; 8; 10; 15; 20; 25].

(** ** Data structures *)

Record Prospect : Type := { reward : Q; delay : Q; prob : Q }.
Record Design : Type := { ProspectA : Prospect; ProspectB : Prospect }.

(** The design attributes of one row of a design table. *)
Record design : Type := { RA : Q; DA : Q; PA : Q; RB : Q; DB : Q; PB : Q }.

Definition design_columns : list string := ["RA"; "DA"; "PA"; "RB"; "DB"; "PB"].

(** A row of a design [DataFrame]: its index label and its attributes. *)
Record row : Type := { label : Z; design_of : design }.

(** A row after [remove_highly_predictable_designs] has annotated the
    frame; [None] is NaN.  The [badness] column exists in the fallback
    branch only. *)
Record arow : Type := {
  a_label : Z;
  a_design : design;
  p_chose_B : option Q;
  highly_predictable : bool;
  badness : option Q
}.

(** One line of the trial history [self.data.df]: a design and the response. *)
Record trial_record : Type := { t_label : Z; t_design : design; R : Z }.

(** [column name] is the accessor of a design column, if [name] is one. *)
Definition column (name : string) : option (design -> Q) :=
  if String.eqb name "RA" then Some RA
  else if String.eqb name "DA" then Some DA
  else if String.eqb name "PA" then Some PA
  else if String.eqb name "RB" then Some RB
  else if String.eqb name "DB" then Some DB
  else if String.eqb name "PB" then Some PB
  else None.

(** All columns of two rows are equal (as numbers). *)
Definition design_eqb (a b : design) : bool :=
  Qeq_bool (RA a) (RA b) && Qeq_bool (DA a) (DA b) && Qeq_bool (PA a) (PA b) &&
  Qeq_bool (RB a) (RB b) && Qeq_bool (DB a) (DB b) && Qeq_bool (PB a) (PB b).

(** [df_to_design_tuple]: the first row of a frame as a named tuple *)
Definition df_to_design_tuple (df : list arow) : result Design :=
  match df with
  | r :: _ =>
      let d := a_design r in
      OK {| ProspectA := {| reward := RA d; delay := DA d; prob := PA d |};
            ProspectB := {| reward := RB d; delay := DB d; prob := PB d |} |}
  | [] => Err (IndexError "index 0 is out of bounds for axis 0 with size 0")
  end.

(** ** Frames of designs *)

(** [pd.DataFrame(rows)]: labels are the positions, counted from [n]. *)
Fixpoint range_index (n : Z) (ds : list design) : list row :=
  match ds with
  | [] => []
  | d :: t => {| label := n; design_of := d |} :: range_index (n + 1)%Z t
  end.

(** [frame[mask].index] *)
Definition labels_where (mask : design -> bool) (t : list row) : list Z :=
  map label (filter (fun r => mask (design_of r)) t).

(** [frame.drop(labels)]: every row carrying one of the labels goes. *)
Definition drop (labels : list Z) (t : list row) : list row :=
  filter (fun r => negb (existsb (Z.eqb (label r)) labels)) t.

(** [itertools.product(l1, l2, l3, l4, l5, l6)], last list fastest. *)
Definition product6 (l1 l2 l3 l4 l5 l6 : list Q) : list (Q * Q * Q * Q * Q * Q) :=
  flat_map (fun a =>
  flat_map (fun b =>
  flat_map (fun c =>
  flat_map (fun d =>
  flat_map (fun e =>
  map (fun f => (a, b, c, d, e, f)) l6) l5) l4) l3) l2) l1.

(** ** The generator object *)

Record DARCDesignGenerator : Type := {
  _DA : list Q;
  _DB : list Q;
  _RA : list Q;
  _RB : list Q;
  _PA : list Q;
  _PB : list Q;
  _RA_over_RB : list Q;
  max_trials : Z;
  random_choice_dimension : option string;
  NO_REPEATS : bool;
  all_possible_designs : list row;
  (* attributes kept by the base classes of [bad.designs] *)
  trial : Z;
  data : list trial_record
}.

Definition set_all_possible_designs (self : DARCDesignGenerator) (D : list row)
  : DARCDesignGenerator :=
  {| _DA := _DA self; _DB := _DB self; _RA := _RA self; _RB := _RB self;
     _PA := _PA self; _PB := _PB self; _RA_over_RB := _RA_over_RB self;
     max_trials := max_trials self;
     random_choice_dimension := random_choice_dimension self;
     NO_REPEATS := NO_REPEATS self;
     all_possible_designs := D;
     trial := trial self; data := data self |}.

(** [not l] for a list: it is empty. *)
Definition py_not (l : list Q) : bool :=
  match l with [] => true | _ => false end.

(** [l is False] for a list object [l]: never. *)
Definition is_False (l : list Q) : bool := false.

Definition py_assert (c : bool) (msg : string) : result unit :=
  if c then OK tt else Err (AssertionError msg).

Local Open Scope result_scope.

(** ** [DARCDesignGenerator._input_type_validation]

    The [isinstance(_, list)] assertions hold by typing. *)
Definition _input_type_validation (RA DA PA RB DB PB RA_over_RB : list Q) : result unit :=
  _ <- (if py_not RA
        then py_assert (negb (is_False RA_over_RB))
               "If not providing list for RA, we expect a list for RA_over_RB"
        else OK tt) ;;
  if py_not RA_over_RB
  then py_assert (negb (is_False RA))
         "If not providing list for RA_over_RB, we expect a list for RA"
  else OK tt.

(** [np.any((np.array(l) < 0) | (np.array(l) > 1))] *)
Definition any_outside_unit (l : list Q) : bool :=
  existsb (fun x => Qltb x 0 || Qgtb x 1) l.

(** [np.any(np.array(l) < 0)] *)
Definition any_negative (l : list Q) : bool := existsb (fun x => Qltb x 0) l.

(** ** [DARCDesignGenerator._input_value_validation] *)
Definition _input_value_validation (PA PB DA DB RA_over_RB : list Q) : result unit :=
  if any_outside_unit PA then Err (ValueError "Expect all values of PA to be between 0-1")
  else if any_outside_unit PB then Err (ValueError "Expect all values of PB to be between 0-1")
  else if any_negative DA then Err (ValueError "Expecting all values of DA to be >= 0")
  else if any_negative DB then Err (ValueError "Expecting all values of DB to be >= 0")
  else if any_outside_unit RA_over_RB
       then Err (ValueError "Expect all values of RA_over_RB to be between 0-1")
  else OK tt.

(** ** [DARCDesignGenerator.generate_all_possible_designs] *)

(** The frame [D] built by the first [if]; in the last branch the name [D]
    stays unbound and its first use raises. *)
Definition initial_designs (self : DARCDesignGenerator) : result (list row) :=
  if py_not (_RA_over_RB self) then
    OK (range_index 0
          (map (fun '(ra, da, pa, rb, db, pb) =>
                  {| RA := ra; DA := da; PA := pa; RB := rb; DB := db; PB := pb |})
               (product6 (_RA self) (_DA self) (_PA self) (_RB self) (_DB self) (_PB self))))
  else if py_not (_RA self) then
    OK (range_index 0
          (map (fun '(ra_over_rb, da, pa, rb, db, pb) =>
                  {| RA := rb * ra_over_rb; DA := da; PA := pa; RB := rb; DB := db; PB := pb |})
               (product6 (_RA_over_RB self) (_DA self) (_PA self) (_RB self) (_DB self) (_PB self))))
  else Err (UnboundLocalError "D").

Definition generate_all_possible_designs (self : DARCDesignGenerator)
    (assume_discounting : bool) : result DARCDesignGenerator :=
  D <- initial_designs self ;;
  let D := drop (labels_where (fun d => Qgtb (DA d) (DB d)) D) D in
  let D := if assume_discounting
           then drop (labels_where (fun d => Qltb (RB d) (RA d)) D) D
           else D in
  OK (set_all_possible_designs self D).

(** ** [DARCDesignGenerator.__init__]

    [super().__init__()] starts the trial counter at 0 with an empty
    history; [generate_all_possible_designs] runs with its default
    [assume_discounting=True]. *)
Definition __init__ (DA DB RA RB RA_over_RB PA PB : list Q)
    (random_choice_dimension : option string) (max_trials : Z) (NO_REPEATS : bool)
  : result DARCDesignGenerator :=
  _ <- _input_type_validation RA DA PA RB DB PB RA_over_RB ;;
  _ <- _input_value_validation PA PB DA DB RA_over_RB ;;
  generate_all_possible_designs
    {| _DA := DA; _DB := DB; _RA := RA; _RB := RB; _PA := PA; _PB := PB;
       _RA_over_RB := RA_over_RB; max_trials := max_trials;
       random_choice_dimension := random_choice_dimension;
       NO_REPEATS := NO_REPEATS; all_possible_designs := [];
       trial := 0%Z; data := [] |}
    true.

(** ** [remove_trials_already_run] *)

(** Number of rows of [t] equal to [d] on all design columns. *)
Definition occurrences (d : design) (t : list row) : nat :=
  length (filter (fun r => design_eqb d (design_of r)) t).

(** [frame.drop_duplicates(keep=False)]: only rows occurring once stay. *)
Definition drop_duplicates_keep_False (t : list row) : list row :=
  filter (fun r => Nat.eqb (occurrences (design_of r) t) 1) t.

Definition remove_trials_already_run (design_set exclude_these : list row) : list row :=
  drop_duplicates_keep_False (design_set ++ exclude_these).

(** [self.data.df.drop(columns=['R'])] *)
Definition drop_R (df : list trial_record) : list row :=
  map (fun t => {| label := t_label t; design_of := t_design t |}) df.

(** ** [choose_one_along_design_dimension] *)

(** [Series.unique()]: the distinct values, by first appearance. *)
Fixpoint unique (l : list Q) : list Q :=
  match l with
  | [] => []
  | x :: t => x :: filter (fun y => negb (Qeq_bool x y)) (unique t)
  end.

(** [random.choice(seq)] is [seq[randbelow(len(seq))]]; [draw] is the
    integer the generator supplies, reduced below [len(seq)]. *)
Definition random_choice (draw : nat) (seq : list Q) : result Q :=
  match nth_error seq (draw mod length seq) with
  | Some x => OK x
  | None => Err (IndexError "Cannot choose from an empty sequence")
  end.

Definition choose_one_along_design_dimension (draw : nat)
    (allowable_designs : list row) (design_dim_name : string) : result (list row) :=
  match column design_dim_name with
  | None => Err (KeyError design_dim_name)
  | Some col =>
      let unique_values := unique (map (fun r => col (design_of r)) allowable_designs) in
      chosen_value <- random_choice draw unique_values ;;
      OK (filter (fun r => Qeq_bool (col (design_of r)) chosen_value) allowable_designs)
  end.

(** ** [remove_highly_predictable_designs] *)

(** The model as this module uses it:
    [model.predictive_y(model.get_θ_point_estimate(), designs)]. *)
Record model : Type := {
  predictive_y_at_point_estimate : list row -> list Q
}.

Definition threshold : Q := 1 # 100.

(** [pd.Series(values)[lbl]] under index alignment: the series is labelled
    [0 .. len-1]; a frame row with another label receives NaN. *)
Definition aligned (values : list Q) (lbl : Z) : option Q :=
  if (lbl <? 0)%Z then None else nth_error values (Z.to_nat lbl).

(** [(p < threshold) | (p > 1 - threshold)]; comparisons with NaN are False. *)
Definition is_highly_predictable (p : option Q) : bool :=
  match p with
  | Some p => Qltb p threshold || Qgtb p (1 - threshold)
  | None => false
  end.

(** The frame after the columns [p_chose_B] and [highly_predictable] are set. *)
Definition annotate (allowable_designs : list row) (values : list Q) : list arow :=
  map (fun r =>
         let p := aligned values (label r) in
         {| a_label := label r; a_design := design_of r;
            p_chose_B := p;
            highly_predictable := is_highly_predictable p;
            badness := None |}) allowable_designs.

(** [frame.size]: the number of cells, with the two added columns. *)
Definition size (t : list arow) : nat := length t * (length design_columns + 2).

Definition a_labels_where (mask : arow -> bool) (t : list arow) : list Z :=
  map a_label (filter mask t).

Definition a_drop (labels : list Z) (t : list arow) : list arow :=
  filter (fun r => negb (existsb (Z.eqb (a_label r)) labels)) t.

Definition p_below (q : Q) (r : arow) : bool :=
  match p_chose_B r with Some p => Qltb p q | None => false end.

Definition p_above (q : Q) (r : arow) : bool :=
  match p_chose_B r with Some p => Qgtb p q | None => false end.

(** [np.abs(0.5 - p)] *)
Definition set_badness (r : arow) : arow :=
  {| a_label := a_label r; a_design := a_design r; p_chose_B := p_chose_B r;
     highly_predictable := highly_predictable r;
     badness := match p_chose_B r with
                | Some p => Some (Qabs ((1 # 2) - p))
                | None => None
                end |}.

(** Order of [sort_values]: ascending, NaN last. *)
Definition badness_le (a b : arow) : bool :=
  match badness a, badness b with
  | Some x, Some y => Qle_bool x y
  | Some _, None => true
  | None, Some _ => false
  | None, None => true
  end.

Fixpoint insert_sorted (r : arow) (t : list arow) : list arow :=
  match t with
  | [] => [r]
  | h :: t' => if badness_le r h then r :: h :: t' else h :: insert_sorted r t'
  end.

(** [frame.sort_values(by=['badness'])]; among equal keys the order of
    numpy's sort is not specified, this one keeps the frame's order. *)
Definition sort_values (t : list arow) : list arow :=
  fold_right insert_sorted [] t.

Definition remove_highly_predictable_designs (allowable_designs : list row) (m : model)
  : list arow :=
  let p_chose_B := predictive_y_at_point_estimate m allowable_designs in
  let allowable_designs := annotate allowable_designs p_chose_B in
  let n_not_predictable :=
    (Z.of_nat (size allowable_designs)
     - Z.of_nat (length (filter highly_predictable allowable_designs)))%Z in
  if (n_not_predictable >? 10)%Z then
    let allowable_designs :=
      a_drop (a_labels_where (p_below threshold) allowable_designs) allowable_designs in
    a_drop (a_labels_where (p_above (1 - threshold)) allowable_designs) allowable_designs
  else
    firstn 10 (sort_values (map set_badness allowable_designs)).

(** ** [DARCDesignGenerator.refine_design_space] *)

Definition refine_design_space (self : DARCDesignGenerator) (m : model) (draw : nat)
  : result (list arow) :=
  let allowable_designs := all_possible_designs self in
  let allowable_designs :=
    if NO_REPEATS self && (trial self >? 1)%Z
    then remove_trials_already_run allowable_designs (drop_R (data self))
    else allowable_designs in
  allowable_designs <-
    match random_choice_dimension self with
    | Some dim => choose_one_along_design_dimension draw allowable_designs dim
    | None => OK allowable_designs
    end ;;
  OK (remove_highly_predictable_designs allowable_designs m).

(** ** [DARCDesignGenerator.get_next_design]

    [design_optimisation] belongs to [bad.optimisation]; it is an argument
    here, applied to the allowable designs and returning the chosen design
    frame and its utility. *)
Definition get_next_design
    (design_optimisation : list arow -> result (list arow * Q))
    (self : DARCDesignGenerator) (m : model) (draw : nat) : result (option Design) :=
  if (trial self >? max_trials self - 1)%Z then OK None
  else
    allowable_designs <- refine_design_space self m draw ;;
    chosen <- design_optimisation allowable_designs ;;
    chosen_design_named_tuple <- df_to_design_tuple (fst chosen) ;;
    OK (Some chosen_design_named_tuple).

(** ** The design table as the specification words it *)

(** The Cartesian product of the value lists
    [(RA, DA, PA, RB, DB, PB)], one design per combination. *)
Definition cartesian_product (self : DARCDesignGenerator) : list design :=
  map (fun '(ra, (da, (pa, (rb, (db, pb))))) =>
         {| RA := ra; DA := da; PA := pa; RB := rb; DB := db; PB := pb |})
      (list_prod (_RA self) (list_prod (_DA self) (list_prod (_PA self)
         (list_prod (_RB self) (list_prod (_DB self) (_PB self)))))).

(** A row stays unless A is delayed longer than B or, when discounting is
    assumed, B pays less than A. *)
Definition feasible (assume_discounting : bool) (d : design) : bool :=
  negb (Qgtb (DA d) (DB d)) &&
  negb (assume_discounting && Qltb (RB d) (RA d)).

(** [d] is a row of [t], compared on all design columns. *)
Definition occurs_in (d : design) (t : list row) : bool :=
  existsb (fun r => design_eqb d (design_of r)) t.

(** The design tuple [D] is a row of the annotated table [A]. *)
Definition chosen_from (D : Design) (A : list arow) : Prop :=
  exists r, In r A /\ df_to_design_tuple [r] = OK D.

(** ** Readings used to state what the generator and the filters do *)

(** A probability, or a reward ratio, as the value validation wants it. *)
Definition in_unit_interval (x : Q) : Prop := 0 <= x /\ x <= 1.

(** The combinations of the ratio parameterisation: the product of
    [(RA_over_RB, DA, PA, RB, DB, PB)] with [RA = RB * RA_over_RB]. *)
Definition ratio_product (self : DARCDesignGenerator) : list design :=
  map (fun '(ratio, (da, (pa, (rb, (db, pb))))) =>
         {| RA := rb * ratio; DA := da; PA := pa; RB := rb; DB := db; PB := pb |})
      (list_prod (_RA_over_RB self) (list_prod (_DA self) (list_prod (_PA self)
         (list_prod (_RB self) (list_prod (_DB self) (_PB self)))))).

(** The combinations the table is built from, in the order of the product:
    absolute rewards when [RA_over_RB] is empty, reward ratios otherwise. *)
Definition all_combinations (self : DARCDesignGenerator) : list design :=
  if py_not (_RA_over_RB self) then cartesian_product self else ratio_product self.

(** Number of rows of the table before the feasibility filters. *)
Definition combinations (self : DARCDesignGenerator) : nat :=
  (length (if py_not (_RA_over_RB self) then _RA self else _RA_over_RB self)
   * (length (_DA self) * (length (_PA self) * (length (_RB self)
   * (length (_DB self) * length (_PB self))))))%nat.

(** The annotated row that [remove_highly_predictable_designs] makes of a
    design row to which the aligned probability [p] was assigned. *)
Definition annotated (r : row) (p : option Q) : arow :=
  {| a_label := label r; a_design := design_of r; p_chose_B := p;
     highly_predictable := is_highly_predictable p; badness := None |}.

End Designs.

(** * The value validation on [float64] values

    The lists handed to the constructor go through [np.array]: besides
    ordinary numbers they may hold the infinities and NaN, and numpy's
    comparisons with NaN are all False.  Finite floats compare as the
    rationals they are. *)

Module Float64.

Import Designs.

Inductive float64 : Type :=
| Finite (q : Q)
| PosInf
| NegInf
| NaN.

(** [x < y] of numpy *)
Definition lt (x y : float64) : bool :=
  match x, y with
  | NaN, _ | _, NaN => false
  | _, NegInf => false
  | NegInf, _ => true
  | PosInf, _ => false
  | Finite _, PosInf => true
  | Finite a, Finite b => Qltb a b
  end.

(** [x > y] of numpy *)
Definition gt (x y : float64) : bool := lt y x.

(** [np.any((np.array(l) < 0) | (np.array(l) > 1))] *)
Definition any_outside_unit (l : list float64) : bool :=
  existsb (fun x => lt x (Finite 0) || gt x (Finite 1)) l.

(** [np.any(np.array(l) < 0)] *)
Definition any_negative (l : list float64) : bool :=
  existsb (fun x => lt x (Finite 0)) l.

(** [DARCDesignGenerator._input_value_validation] *)
Definition _input_value_validation (PA PB DA DB RA_over_RB : list float64) : result unit :=
  if any_outside_unit PA then Err (ValueError "Expect all values of PA to be between 0-1")
  else if any_outside_unit PB then Err (ValueError "Expect all values of PB to be between 0-1")
  else if any_negative DA then Err (ValueError "Expecting all values of DA to be >= 0")
  else if any_negative DB then Err (ValueError "Expecting all values of DB to be >= 0")
  else if any_outside_unit RA_over_RB
       then Err (ValueError "Expect all values of RA_over_RB to be between 0-1")
  else OK tt.

(** A number in [0, 1], or NaN. *)
Definition in_unit_interval_or_nan (x : float64) : Prop :=
  match x with
  | Finite q => (0 <= q /\ q <= 1)%Q
  | NaN => True
  | PosInf | NegInf => False
  end.

(** A number that is not negative, plus infinity included, or NaN. *)
Definition not_negative_or_nan (x : float64) : Prop :=
  match x with
  | Finite q => (0 <= q)%Q
  | PosInf | NaN => True
  | NegInf => False
  end.

End Float64.

(** * Test vectors for the model

    An integer stand-in for the float routines, so that the methods run on
    small inputs: [np.log] is the integer binary logarithm, the statistics
    are crude.  Nothing is proved about floats with it. *)

Module ModelVectors.

Import Model.
Local Open Scope Z_scope.

#[export] Instance Z_ops : FloatOps Z := {|
  fzero := 0;
  fone := 1;
  fadd := Z.add;
  fsub := Z.sub;
  flog := Z.log2;
  fisnan := fun _ => false;
  of_int := fun z => z;
  median := fun l => nth (Nat.div2 (length l)) l 0;
  mean := fun l => fold_right Z.add 0 l / Z.of_nat (length l);
  quantile := fun _ l => nth 0 l 0;
  norm_fit_entropy := fun l => Z.of_nat (length l)
|}.

(** One parameter, a prior with log density [-x], and a [predictive_y]
    that answers 8 for every particle. *)
Definition cls0 : ModelClass (num := Z) :=
  {| prior := [("logk", {| logpdf := Z.opp; dist_mean := 0 |})];
     θ_fixed := [("ϵ", 0)];
     predictive_y := fun fθ _ => map (fun _ => 8) (df_index fθ) |}.

(** Two particles. *)
Definition particles0 : DataFrame (num := Z) :=
  {| df_index := [0; 1]; df_columns := [("logk", [VFloat 5; VFloat 7])] |}.

(** Two trials, answered B then A. *)
Definition trials0 : DataFrame (num := Z) :=
  {| df_index := [0; 1];
     df_columns := [("RA", [VFloat 10; VFloat 20]); ("RB", [VFloat 100; VFloat 100]);
                    ("R", [VInt 1; VInt 0])] |}.

(** The second response is the label 2. *)
Definition trials_bad : DataFrame (num := Z) :=
  {| df_index := [0; 1];
     df_columns := [("RA", [VFloat 10; VFloat 20]); ("RB", [VFloat 100; VFloat 100]);
                    ("R", [VInt 1; VInt 2])] |}.

(** The store: the particles at 0, the two histories at 1 and 2. *)
Definition s0 : state (num := Z) :=
  {| heap := [particles0; trials0; trials_bad];
     self := {| n_particles := 2; parameter_names := ["logk"];
                θ := 0%nat; θ_true := None |} |}.

(** Two trials, answered B then A, with the responses held as floats. *)
Definition trials_float : DataFrame (num := Z) :=
  {| df_index := [0; 1];
     df_columns := [("RA", [VFloat 10; VFloat 20]); ("RB", [VFloat 100; VFloat 100]);
                    ("R", [VFloat 1; VFloat 0])] |}.

(** The store with that history: the particles at 0, the history at 1. *)
Definition s_float_labels : state (num := Z) :=
  {| heap := [particles0; trials_float];
     self := {| n_particles := 2; parameter_names := ["logk"];
                θ := 0%nat; θ_true := None |} |}.

(** The samples of a run: every draw is 3. *)
Definition rvs0 : string -> nat -> list Z := fun _ size => repeat 3 size.

(** A store whose model names a parameter that has neither prior nor column. *)
Definition s_unknown_parameter : state (num := Z) :=
  {| heap := [particles0; trials0; trials_bad];
     self := {| n_particles := 2; parameter_names := ["logk"; "α"];
                θ := 0%nat; θ_true := None |} |}.

(** Integer stand-ins for the arithmetic of the discount functions. *)
#[export] Instance Z_arith : DelayedAndRisky.FloatArith Z := {|
  DelayedAndRisky.fmul := Z.mul;
  DelayedAndRisky.fdiv := Z.div;
  DelayedAndRisky.fexp := fun x => 2 ^ x
|}.

(** Two particles of the multiplicative hyperbolic model. *)
Definition particles_kh : DataFrame (num := Z) :=
  {| df_index := [0; 1];
     df_columns := [("logk", [VFloat 1; VFloat 2]); ("logh", [VFloat 0; VFloat 1])] |}.

(** One design: 10 now for sure against 100 in 3 days for sure. *)
Definition one_design : DataFrame (num := Z) :=
  {| df_index := [0];
     df_columns := [("RA", [VFloat 10]); ("DA", [VFloat 0]); ("PA", [VFloat 1]);
                    ("RB", [VFloat 100]); ("DB", [VFloat 3]); ("PB", [VFloat 1])] |}.

End ModelVectors.

(** * Test vectors for the design generator *)

Module DesignVectors.

Import Designs.
Local Open Scope Q_scope.

(** Attributes of a generator before [generate_all_possible_designs] ran. *)
Definition fresh_generator (DA DB RA RB RA_over_RB PA PB : list Q) : DARCDesignGenerator :=
  {| _DA := DA; _DB := DB; _RA := RA; _RB := RB; _PA := PA; _PB := PB;
     _RA_over_RB := RA_over_RB; max_trials := 20;
     random_choice_dimension := None; NO_REPEATS := false;
     all_possible_designs := []; trial := 0%Z; data := [] |}.

(** Absolute rewards: A pays 50 or 150 now or in 60 days, B pays 100 in 30 days. *)
Definition absolute_rewards : DARCDesignGenerator :=
  fresh_generator [0; 60] [30] [50; 150] [100] [] [1] [1].

Definition design_50_now : design :=
  {| RA := 50; DA := 0; PA := 1; RB := 100; DB := 30; PB := 1 |}.
Definition design_80_now : design :=
  {| RA := 80; DA := 0; PA := 1; RB := 100; DB := 30; PB := 1 |}.
Definition design_90_now : design :=
  {| RA := 90; DA := 0; PA := 1; RB := 100; DB := 30; PB := 1 |}.

(** Two candidate designs, labelled 0 and 1. *)
Definition two_designs : list row := range_index 0 [design_50_now; design_80_now].

(** A model that is certain of the answer A for every design. *)
Definition certain_model : model :=
  {| predictive_y_at_point_estimate := map (fun _ => 0) |}.

(** A model that is undecided on every design. *)
Definition undecided_model : model :=
  {| predictive_y_at_point_estimate := map (fun _ => 1 # 2) |}.

(** The generator built from the default arguments: no value for [RA]. *)
Definition default_generator : DARCDesignGenerator :=
  fresh_generator [0] DEFAULT_DB [] [100] [] [1] [1].

(** An optimiser that settles for the first allowable design. *)
Definition first_design (allowable : list arow) : result (list arow * Q) :=
  OK (firstn 1 allowable, 0).

(** The second trial of a run without repeats: the first design was
    [design_50_now], answered B. *)
Definition second_trial : DARCDesignGenerator :=
  {| _DA := [0]; _DB := [30]; _RA := [50; 80]; _RB := [100]; _PA := [1]; _PB := [1];
     _RA_over_RB := []; max_trials := 20;
     random_choice_dimension := None; NO_REPEATS := true;
     all_possible_designs := two_designs;
     trial := 1%Z;
     data := [{| t_label := 0%Z; t_design := design_50_now; R := 1%Z |}] |}.

(** The third trial of such a run, after [design_50_now] and [design_80_now]. *)
Definition third_trial : DARCDesignGenerator :=
  {| _DA := [0]; _DB := [30]; _RA := [50; 80; 90]; _RB := [100]; _PA := [1]; _PB := [1];
     _RA_over_RB := []; max_trials := 20;
     random_choice_dimension := Some "RB"%string; NO_REPEATS := true;
     all_possible_designs := range_index 0 [design_50_now; design_80_now; design_90_now];
     trial := 2%Z;
     data := [{| t_label := 0%Z; t_design := design_50_now; R := 1%Z |};
              {| t_label := 0%Z; t_design := design_80_now; R := 0%Z |}] |}.

(** A third trial whose history holds a design that is not in the table. *)
Definition foreign_history : DARCDesignGenerator :=
  {| _DA := [0]; _DB := [30]; _RA := [50; 80]; _RB := [100]; _PA := [1]; _PB := [1];
     _RA_over_RB := []; max_trials := 20;
     random_choice_dimension := None; NO_REPEATS := true;
     all_possible_designs := two_designs;
     trial := 2%Z;
     data := [{| t_label := 0%Z; t_design := design_90_now; R := 1%Z |};
              {| t_label := 1%Z; t_design := design_50_now; R := 0%Z |}] |}.

(** Reward ratios: A pays a quarter or three quarters of B's 100 or 500. *)
Definition reward_ratios : DARCDesignGenerator :=
  fresh_generator [0; 60] [30] [] [100; 500] [1 # 4; 3 # 4] [1] [1].

(** The table of [absolute_rewards] without the discounting assumption:
    the rows labelled 0 and 2 of the four combinations are left. *)
Definition table_with_gaps : list row :=
  [ {| label := 0%Z; design_of := design_50_now |};
    {| label := 2%Z;
       design_of := {| RA := 150; DA := 0; PA := 1; RB := 100; DB := 30; PB := 1 |} |} ].

(** A model that predicts B with probability 1/2 for the first design it
    is given and with probability 0 for the others. *)
Definition half_then_zero : model :=
  {| predictive_y_at_point_estimate :=
       fun t => match t with [] => [] | _ :: rest => (1 # 2) :: map (fun _ => 0) rest end |}.

(** A generator with an empty table that varies the delay of B. *)
Definition empty_with_dimension : DARCDesignGenerator :=
  {| _DA := [0]; _DB := [30]; _RA := []; _RB := [100]; _PA := [1]; _PB := [1];
     _RA_over_RB := []; max_trials := 20;
     random_choice_dimension := Some "DB"%string; NO_REPEATS := false;
     all_possible_designs := []; trial := 0%Z; data := [] |}.

(** A design set that holds [design_50_now] twice. *)
Definition repeated_designs : list row :=
  range_index 0 [design_50_now; design_80_now; design_50_now; design_90_now].

(** A history of one trial, run with [design_80_now]. *)
Definition history_80 : list row :=
  [{| label := 0%Z; design_of := design_80_now |}].

(** A prospect A paid now against 100 in [db] days. *)
Definition design_now_against (ra db : Q) : design :=
  {| RA := ra; DA := 0; PA := 1; RB := 100; DB := db; PB := 1 |}.

(** A generator that holds the delay of B constant: two rewards of A
    against two delays of B. *)
Definition hold_delay : DARCDesignGenerator :=
  {| _DA := [0]; _DB := [30; 60]; _RA := [50; 80]; _RB := [100]; _PA := [1]; _PB := [1];
     _RA_over_RB := []; max_trials := 20;
     random_choice_dimension := Some "DB"%string; NO_REPEATS := false;
     all_possible_designs :=
       range_index 0 [design_now_against 50 30; design_now_against 50 60;
                      design_now_against 80 30; design_now_against 80 60];
     trial := 0%Z; data := [] |}.

End DesignVectors.

(** * Properties of [bad/model.py] *)

Module ModelFacts.

Import Model.
Local Open Scope py_scope.

Section WithFloats.

Context {num : Type} {F : FloatOps num}.

(** ** Frame reasoning *)

#[local] Abbreviation touches_above := (@Model.touches_above num).

Lemma touches_ret {A} n (a : A) (Q : A -> Prop) : Q a -> touches_above n (ret a) Q.
Proof. intros Ha s Hs; cbn; auto. Qed.

Lemma touches_raise {A} n e (Q : A -> Prop) : touches_above n (raise e) Q.
Proof. intros s Hs; cbn; auto. Qed.

Lemma touches_lift {A} n (r : result A) : touches_above n (lift r) (fun a => r = OK a).
Proof. intros s Hs; cbn; repeat split; auto. destruct r; auto. Qed.

Lemma touches_load n l :
  touches_above n (load l) (fun _ => True).
Proof.
  intros s Hs. unfold load. destruct (nth_error (heap s) l); cbn; auto.
Qed.

Lemma touches_get_self n : touches_above n (@get_self num) (fun _ => True).
Proof. intros s Hs; cbn; auto. Qed.

Lemma touches_alloc n f : touches_above n (alloc f) (fun l => n <= l).
Proof.
  intros s Hs. cbn. rewrite length_app. cbn. repeat split; try lia.
  now rewrite firstn_app, (proj2 (Nat.sub_0_le _ _) Hs), firstn_O, app_nil_r.
Qed.

Lemma firstn_set_nth {A} n l (x : A) (h : list A) :
  n <= l -> firstn n (set_nth l x h) = firstn n h.
Proof.
  revert n l. induction h as [|y h IH]; intros n l Hl; [reflexivity|].
  destruct l as [|l].
  - assert (n = 0) by lia. subst. reflexivity.
  - destruct n as [|n]; [reflexivity|]. cbn. f_equal. apply IH. lia.
Qed.

Lemma length_set_nth {A} l (x : A) (h : list A) : length (set_nth l x h) = length h.
Proof.
  revert l. induction h as [|y h IH]; intros [|l]; cbn; auto.
Qed.

Lemma touches_store n l f : n <= l -> touches_above n (store l f) (fun _ => True).
Proof.
  intros Hl s Hs. cbn. rewrite length_set_nth, firstn_set_nth by exact Hl. auto.
Qed.

Lemma touches_bind {A B} n (c : @M num A) (k : A -> @M num B) (P : A -> Prop) (Q : B -> Prop) :
  touches_above n c P ->
  (forall a, P a -> touches_above n (k a) Q) ->
  touches_above n (bind c k) Q.
Proof.
  intros Hc Hk s Hs. specialize (Hc s Hs). unfold bind.
  destruct (c s) as [[a|e] s1]; cbn in *.
  - destruct Hc as (Hself & Hlen & Hfirst & HP).
    destruct (Hk a HP s1 ltac:(lia)) as (Hself' & Hlen' & Hfirst' & HQ).
    repeat split; try congruence; try lia; exact HQ.
  - destruct Hc as (Hself & Hlen & Hfirst & _). auto.
Qed.

Lemma touches_weaken {A} n (c : @M num A) (P Q : A -> Prop) :
  touches_above n c P -> (forall a, P a -> Q a) -> touches_above n c Q.
Proof.
  intros Hc HPQ s Hs. destruct (Hc s Hs) as (H1 & H2 & H3 & H4).
  repeat split; auto. destruct (fst (c s)); auto.
Qed.

Lemma touches_for_each {A S} n (xs : list A) (body : A -> S -> @M num S) acc :
  (forall x a, touches_above n (body x a) (fun _ => True)) ->
  touches_above n (for_each xs body acc) (fun _ => True).
Proof.
  intros Hbody. revert acc. induction xs as [|x xs IH]; intros acc; cbn.
  - now apply touches_ret.
  - eapply touches_bind; [apply Hbody|]. intros a _. apply IH.
Qed.

Lemma touches_unchanged {A} (c : @M num A) (Q : A -> Prop) s :
  touches_above (length (heap s)) c Q -> unchanged s (snd (c s)).
Proof.
  intros H. destruct (H s (le_n _)) as (Hself & Hlen & Hfirst & _).
  split; [exact Hself|]. exists (skipn (length (heap s)) (heap (snd (c s)))).
  rewrite firstn_all in Hfirst. rewrite <- Hfirst at 1. symmetry. apply firstn_skipn.
Qed.

Lemma unchanged_lookup (s s' : @state num) l f :
  unchanged s s' -> nth_error (heap s) l = Some f -> nth_error (heap s') l = Some f.
Proof.
  intros [_ [fresh ->]] Hl. rewrite nth_error_app1; [exact Hl|].
  apply nth_error_Some. congruence.
Qed.

Lemma unchanged_refl (s : @state num) : unchanged s s.
Proof. split; [reflexivity|]. exists []. now rewrite app_nil_r. Qed.

Lemma unchanged_trans (s1 s2 s3 : @state num) :
  unchanged s1 s2 -> unchanged s2 s3 -> unchanged s1 s3.
Proof.
  intros [H1 [f1 E1]] [H2 [f2 E2]]. split; [congruence|].
  exists (f1 ++ f2). now rewrite E2, E1, app_assoc.
Qed.

(** The bodies of the methods, one rule per statement. *)
Ltac touches_step :=
  lazymatch goal with
  | |- touches_above _ (bind _ _) _ => eapply touches_bind; [|intros ? ?]
  | |- touches_above _ (ret _) _ => apply touches_ret; auto
  | |- touches_above _ (raise _) _ => apply touches_raise
  | |- touches_above _ (lift _) _ =>
      first [apply touches_lift
            |eapply touches_weaken; [apply touches_lift|cbn; auto]]
  | |- touches_above _ (load _) _ => apply touches_load
  | |- touches_above _ get_self _ => apply touches_get_self
  | |- touches_above _ (alloc _) _ =>
      first [apply touches_alloc
            |eapply touches_weaken; [apply touches_alloc|cbn; auto]]
  | |- touches_above _ (store _ _) _ => apply touches_store; auto
  end.

Lemma touches_θ_column n param_name :
  touches_above n (@θ_column num F param_name) (fun _ => True).
Proof. unfold θ_column. repeat touches_step. Qed.

Lemma touches_get_θ_entropy n param_name :
  touches_above n (@get_θ_entropy num F param_name) (fun _ => True).
Proof.
  unfold get_θ_entropy. eapply touches_bind; [apply touches_θ_column|].
  intros; touches_step.
Qed.

Lemma touches_get_θ_point_estimate n :
  touches_above n (@get_θ_point_estimate num F) (fun _ => True).
Proof. unfold get_θ_point_estimate. repeat touches_step. Qed.

Lemma touches_get_θ_summary_stats n param_name :
  touches_above n (@get_θ_summary_stats num F param_name) (fun _ => True).
Proof.
  unfold get_θ_summary_stats.
  eapply touches_bind; [apply touches_get_θ_entropy|intros ? _].
  do 6 (eapply touches_bind; [apply touches_θ_column|intros ? _]).
  repeat touches_step.
Qed.

Lemma touches_log_prior_pdf_key n cls θ0 log_prior key u :
  n <= log_prior ->
  touches_above n (@log_prior_pdf_key num F cls θ0 log_prior key u) (fun _ => True).
Proof. intros Hn. unfold log_prior_pdf_key. repeat touches_step. Qed.

Lemma touches_log_prior_pdf n cls θ0 :
  touches_above n (@log_prior_pdf num F cls θ0) (fun _ => True).
Proof.
  unfold log_prior_pdf.
  eapply touches_bind; [apply touches_load|intros fθ _].
  eapply touches_bind; [apply touches_alloc|intros log_prior Hlp].
  eapply touches_bind; [apply touches_get_self|intros me _].
  eapply touches_bind.
  - apply touches_for_each. intros. now apply touches_log_prior_pdf_key.
  - intros; repeat touches_step.
Qed.

Lemma load_dangling (s : @state num) l {A} (k : DataFrame -> @M num A) :
  nth_error (heap s) l = None -> snd (bind (load l) k s) = s.
Proof. intros H. unfold bind, load. now rewrite H. Qed.

(** C9. The point estimate, the summary statistics and the entropy of a
    parameter only read the model: after each of them the attributes of
    the model are the same and every frame allocated before, the particle
    population [self.θ] among them, has the content it had.  The same holds
    for [log_prior_pdf], which writes the log densities into a copy of its
    argument [θ], so the frame at [θ] is the one the caller passed. *)
Theorem projections_leave_state_unchanged
    (cls : ModelClass) (s : @state num) (param_name : string) (θ0 : loc) :
  (unchanged s (snd (get_θ_point_estimate s)) /\
   unchanged s (snd (get_θ_summary_stats param_name s)) /\
   unchanged s (snd (get_θ_entropy param_name s)) /\
   unchanged s (snd (log_prior_pdf cls θ0 s))) /\
  (nth_error (heap (snd (get_θ_point_estimate s))) (θ (self s))
     = nth_error (heap s) (θ (self s)) /\
   nth_error (heap (snd (get_θ_summary_stats param_name s))) (θ (self s))
     = nth_error (heap s) (θ (self s)) /\
   nth_error (heap (snd (get_θ_entropy param_name s))) (θ (self s))
     = nth_error (heap s) (θ (self s)) /\
   nth_error (heap (snd (log_prior_pdf cls θ0 s))) θ0 = nth_error (heap s) θ0).
Proof.
  assert (U1 : unchanged s (snd (get_θ_point_estimate s)))
    by (eapply touches_unchanged, touches_get_θ_point_estimate).
  assert (U2 : unchanged s (snd (get_θ_summary_stats param_name s)))
    by (eapply touches_unchanged, touches_get_θ_summary_stats).
  assert (U3 : unchanged s (snd (get_θ_entropy param_name s)))
    by (eapply touches_unchanged, touches_get_θ_entropy).
  assert (U4 : unchanged s (snd (log_prior_pdf cls θ0 s)))
    by (eapply touches_unchanged, touches_log_prior_pdf).
  split; [repeat split; first [apply U1|apply U2|apply U3|apply U4]|].
  assert (Hsame : forall s' l, unchanged s s' ->
            (nth_error (heap s) l = None -> s' = s) ->
            nth_error (heap s') l = nth_error (heap s) l).
  { intros s' l U Hnone. destruct (nth_error (heap s) l) as [f|] eqn:E.
    - now apply (unchanged_lookup _ U).
    - now rewrite (Hnone eq_refl). }
  repeat split; apply Hsame; auto; intros Hnone.
  - unfold get_θ_point_estimate, bind at 1, get_self. now apply load_dangling.
  - unfold get_θ_summary_stats, get_θ_entropy, θ_column, bind, get_self, load.
    now rewrite Hnone.
  - unfold get_θ_entropy, θ_column, bind, get_self, load. now rewrite Hnone.
  - unfold log_prior_pdf. now apply load_dangling.
Qed.

(** ** The likelihood loop *)

Lemma length_zip_with {A B C} (f : A -> B -> C) l m :
  length l = length m -> length (zip_with f l m) = length l.
Proof.
  revert m. induction l as [|a l IH]; intros [|b m] H; cbn in *; try discriminate; auto.
Qed.

Lemma nth_error_zip_with {A B C} (f : A -> B -> C) l m i a b :
  nth_error l i = Some a -> nth_error m i = Some b ->
  nth_error (zip_with f l m) i = Some (f a b).
Proof.
  revert m i. induction l as [|x l IH]; intros [|y m] [|i] Ha Hb;
    cbn in *; try discriminate; try congruence. now apply IH.
Qed.

Lemma set_column_length m t v m' :
  @set_column num m t v = OK m' -> length m' = length m.
Proof.
  unfold set_column. destruct (Nat.eqb (length v) (length m)) eqn:E.
  - intros [= <-]. apply Nat.eqb_eq in E. now apply length_zip_with.
  - destruct v as [|x [|y v]]; try discriminate. intros [= <-]. apply length_map.
Qed.

Lemma set_column_shape m t v :
  length v = length m -> exists m', @set_column num m t v = OK m'.
Proof.
  intros H. unfold set_column. rewrite (proj2 (Nat.eqb_eq _ _) H). eauto.
Qed.

Lemma log_likelihood_trial_length cls θ0 data R t p s r s' :
  @log_likelihood_trial num F cls θ0 data R t p s = (OK r, s') -> length r = length p.
Proof.
  unfold log_likelihood_trial, bind, lift, load, alloc, raise.
  repeat match goal with
         | |- context [match ?x with _ => _ end] => destruct x eqn:?; cbn [fst snd]
         | |- context [if ?x then _ else _] => destruct x eqn:?
         | H : (_, _) = (_, _) |- _ => injection H as ? ?; subst
         end;
    intros [= E1 E2]; try discriminate;
    repeat match goal with
           | H : (_, _) = (_, _) |- _ => injection H as ? ?; subst
           end;
    try discriminate; eauto using set_column_length.
Qed.

Lemma for_each_length cls θ0 data R ts p s r s' :
  for_each ts (@log_likelihood_trial num F cls θ0 data R) p s = (OK r, s') ->
  length r = length p.
Proof.
  revert p s. induction ts as [|t ts IH]; intros p s; cbn.
  - now intros [= <- _].
  - unfold bind at 1. destruct (log_likelihood_trial _ _ _ _ _ _ _) as [[p1|e] s1] eqn:E.
    + intros H. rewrite (IH _ _ H). eapply log_likelihood_trial_length, E.
    + discriminate.
Qed.

Lemma touches_log_likelihood_trial n cls θ0 data R t p :
  touches_above n (@log_likelihood_trial num F cls θ0 data R t p) (fun _ => True).
Proof.
  unfold log_likelihood_trial.
  do 4 (eapply touches_bind; [touches_step|intros ? _]).
  destruct (is_int _ 1); [|destruct (is_int _ 0)]; repeat touches_step.
Qed.

Lemma touches_log_likelihood n cls θ0 data :
  touches_above n (@log_likelihood num F cls θ0 data) (fun _ => True).
Proof.
  unfold log_likelihood.
  do 3 (eapply touches_bind; [touches_step|intros ? _]).
  eapply touches_bind;
    [apply touches_for_each; intros; apply touches_log_likelihood_trial|].
  intros; touches_step.
Qed.

Lemma log_likelihood_unchanged cls θ0 data (s : @state num) r s1 :
  log_likelihood cls θ0 data s = (r, s1) -> unchanged s s1.
Proof.
  intros H. change s1 with (snd (r, s1)). rewrite <- H.
  eapply touches_unchanged, touches_log_likelihood.
Qed.

Lemma log_likelihood_length cls θ0 data (s : @state num) fθ ll s1 :
  nth_error (heap s) θ0 = Some fθ ->
  log_likelihood cls θ0 data s = (OK ll, s1) ->
  length ll = nrows fθ.
Proof.
  intros Hθ. unfold log_likelihood, bind at 1, load.
  destruct (nth_error (heap s) data) as [fd|]; [|discriminate].
  unfold bind at 1, load. rewrite Hθ.
  unfold bind at 1, lift. destruct (getattr fd "R") as [R|]; [|discriminate].
  unfold bind at 1.
  destruct (for_each _ _ _ _) as [[p|e] s'] eqn:E; [|discriminate].
  intros [= <- _]. unfold sum_axis1. rewrite !length_map.
  rewrite (for_each_length _ _ _ _ _ _ _ E). unfold zeros. apply repeat_length.
Qed.

(** ** The prior loop: the copy keeps the row labels of [θ] *)

Lemma nth_error_set_nth {A} l (x : A) (h : list A) :
  l < length h -> nth_error (set_nth l x h) l = Some x.
Proof.
  revert l. induction h as [|y h IH]; intros [|l] H; cbn in *; try lia; auto.
  apply IH. lia.
Qed.

Lemma log_prior_pdf_key_index cls θ0 log_prior key u (s : @state num) f r s' :
  nth_error (heap s) log_prior = Some f ->
  log_prior_pdf_key cls θ0 log_prior key u s = (r, s') ->
  exists f', nth_error (heap s') log_prior = Some f' /\ df_index f' = df_index f.
Proof.
  intros Hf. unfold log_prior_pdf_key, bind, lift, load, store, setitem.
  destruct (assoc key (prior cls)); [|intros [= _ <-]; eauto].
  destruct (nth_error (heap s) θ0) as [fθ|]; [|intros [= _ <-]; eauto].
  destruct (getitem fθ key); [|intros [= _ <-]; eauto].
  rewrite Hf. destruct (Nat.eqb _ _); intros [= _ <-]; eauto.
  cbn. eexists; split; [apply nth_error_set_nth|reflexivity].
  apply nth_error_Some. congruence.
Qed.

Lemma log_prior_loop_index cls θ0 log_prior keys u (s : @state num) f r s' :
  nth_error (heap s) log_prior = Some f ->
  for_each keys (log_prior_pdf_key cls θ0 log_prior) u s = (r, s') ->
  exists f', nth_error (heap s') log_prior = Some f' /\ df_index f' = df_index f.
Proof.
  revert u s f. induction keys as [|key keys IH]; intros u s f Hf; cbn.
  - intros [= _ <-]; eauto.
  - unfold bind at 1.
    destruct (log_prior_pdf_key _ _ _ _ _ _) as [[u1|e] s1] eqn:E;
      destruct (log_prior_pdf_key_index _ _ _ _ _ _ Hf E) as (f1 & Hf1 & Hidx).
    + intros H. destruct (IH _ _ _ Hf1 H) as (f2 & Hf2 & Hidx2).
      exists f2; split; [exact Hf2|congruence].
    + intros [= _ <-]; eauto.
Qed.

Lemma log_prior_pdf_length cls θ0 (s : @state num) fθ lp s' :
  nth_error (heap s) θ0 = Some fθ ->
  log_prior_pdf cls θ0 s = (OK lp, s') ->
  length lp = nrows fθ.
Proof.
  intros Hθ. unfold log_prior_pdf, bind at 1, load. rewrite Hθ.
  unfold bind at 1, alloc. unfold bind at 1, get_self. unfold bind at 1.
  cbn [self heap].
  destruct (for_each _ _ _ _) as [[u|e] s1] eqn:E; [|discriminate].
  assert (Hcopy : nth_error (heap s ++ [fθ]) (length (heap s)) = Some fθ).
  { rewrite nth_error_app2, Nat.sub_diag by lia. reflexivity. }
  eapply log_prior_loop_index in E as (f' & Hf' & Hidx); [|exact Hcopy].
  unfold bind, load. rewrite Hf'. intros [= <- _].
  unfold sum_axis1_frame, nrows. now rewrite length_map, length_seq, Hidx.
Qed.

Lemma nth_error_in_range {A} (l : list A) i :
  i < length l -> exists a, nth_error l i = Some a.
Proof.
  intros H. destruct (nth_error l i) eqn:E; eauto.
  apply nth_error_None in E. lia.
Qed.

(** C1. The unnormalised log posterior is the log likelihood plus the log
    prior, entry by entry, with one entry per particle (row of [θ]):
    whenever the two terms are computed, [p_log_pdf] returns their sum and
    the addition cannot fail on the shapes; when one of them raises,
    [p_log_pdf] raises the same exception.  On an empty trial history the
    log likelihood is the vector of zeros. *)
Theorem p_log_pdf_additive
    (cls : ModelClass) (s : @state num) (θ0 data : loc) (fθ : DataFrame) :
  nth_error (heap s) θ0 = Some fθ ->
  (forall ll s1 lp s2,
      log_likelihood cls θ0 data s = (OK ll, s1) ->
      log_prior_pdf cls θ0 s1 = (OK lp, s2) ->
      p_log_pdf cls θ0 data s = (OK (zip_with fadd ll lp), s2) /\
      length ll = nrows fθ /\ length lp = nrows fθ /\
      length (zip_with fadd ll lp) = nrows fθ /\
      forall i, i < nrows fθ ->
        exists a b, nth_error ll i = Some a /\ nth_error lp i = Some b /\
                    nth_error (zip_with fadd ll lp) i = Some (fadd a b)) /\
  (forall e s1,
      log_likelihood cls θ0 data s = (Err e, s1) ->
      p_log_pdf cls θ0 data s = (Err e, s1)) /\
  (forall ll s1 e s2,
      log_likelihood cls θ0 data s = (OK ll, s1) ->
      log_prior_pdf cls θ0 s1 = (Err e, s2) ->
      p_log_pdf cls θ0 data s = (Err e, s2)) /\
  (forall fd R,
      nth_error (heap s) data = Some fd ->
      nrows fd = 0 ->
      getattr fd "R" = OK R ->
      log_likelihood cls θ0 data s = (OK (repeat fzero (nrows fθ)), s)).
Proof.
  intros Hθ. split; [|split; [|split]].
  - intros ll s1 lp s2 Hll Hlp.
    assert (Hθ1 : nth_error (heap s1) θ0 = Some fθ)
      by (eapply unchanged_lookup; [eapply log_likelihood_unchanged, Hll|exact Hθ]).
    pose proof (log_likelihood_length _ _ _ _ Hθ Hll) as Lll.
    pose proof (log_prior_pdf_length _ _ _ Hθ1 Hlp) as Llp.
    repeat split; auto.
    + unfold p_log_pdf, bind. rewrite Hll, Hlp. unfold lift, vadd.
      now rewrite Lll, Llp, Nat.eqb_refl.
    + rewrite length_zip_with; congruence.
    + intros i Hi.
      destruct (@nth_error_in_range _ ll i) as [a Ha]; [now rewrite Lll|].
      destruct (@nth_error_in_range _ lp i) as [b Hb]; [now rewrite Llp|].
      exists a, b. repeat split; auto. now apply nth_error_zip_with.
  - intros e s1 H. unfold p_log_pdf, bind. now rewrite H.
  - intros ll s1 e s2 H H0. unfold p_log_pdf, bind. now rewrite H, H0.
  - intros fd R Hd Hn HR. unfold log_likelihood, bind, load, lift.
    rewrite Hd, Hθ, HR, Hn. cbn. unfold ret, sum_axis1, zeros. cbn.
    now rewrite !map_repeat.
Qed.

(** ** Response labels *)

Section Responses.

Variable cls : @ModelClass num.
Variables θ0 data : loc.
Variables fθ fd : @DataFrame num.
Variable R : list (@value num).

(** The abstract method's contract: one probability per row of [θ]. *)
Hypothesis predictive_y_shape : forall d, length (predictive_y cls fθ d) = nrows fθ.
Hypothesis R_length : length R = nrows fd.

Lemma points_to_unchanged s s' : points_to θ0 data fθ fd s -> unchanged s s' -> points_to θ0 data fθ fd s'.
Proof. intros [H1 H2] U. split; eapply unchanged_lookup; eauto. Qed.

Lemma log_likelihood_trial_spec t p s r :
  points_to θ0 data fθ fd s -> nth_error R t = Some r -> length p = nrows fθ ->
  exists res s',
    log_likelihood_trial cls θ0 data R t p s = (res, s') /\
    unchanged s s' /\
    (valid_response r = true -> exists p', res = OK p' /\ length p' = nrows fθ) /\
    (valid_response r = false -> res = Err ResponseLabelError).
Proof using predictive_y_shape R_length.
  intros [Hθ Hd] Hr Hp.
  assert (Ht : t < nrows fd).
  { rewrite <- R_length. apply nth_error_Some. congruence. }
  destruct (@nth_error_in_range _ (df_index fd) t Ht) as [lbl Hlbl].
  set (td := {| df_index := [lbl];
                df_columns := map (fun c => (fst c, firstn 1 (skipn t (snd c))))
                                  (df_columns fd) |}).
  set (s1 := {| heap := heap s ++ [td]; self := self s |}).
  assert (U : unchanged s s1) by (split; [reflexivity|now exists [td]]).
  assert (Hθ1 : nth_error (heap s ++ [td]) θ0 = Some fθ).
  { rewrite nth_error_app1; [exact Hθ|]. apply nth_error_Some. congruence. }
  assert (Htd : nth_error (heap s ++ [td]) (length (heap s)) = Some td).
  { rewrite nth_error_app2, Nat.sub_diag by lia. reflexivity. }
  assert (E : log_likelihood_trial cls θ0 data R t p s =
              (if is_int r 1 then set_column p t (predictive_y cls fθ td)
               else if is_int r 0
                    then set_column p t (map (fsub fone) (predictive_y cls fθ td))
                    else Err ResponseLabelError, s1)).
  { unfold log_likelihood_trial, bind at 1, load. rewrite Hd.
    unfold bind at 1, lift, take1. rewrite Hlbl. fold td.
    unfold bind at 1, alloc. unfold bind at 1. rewrite Hr. fold s1.
    destruct (is_int r 1); [|destruct (is_int r 0)];
      unfold bind, load, raise; subst s1; cbn [heap];
      rewrite ?Hθ1; cbn [heap]; rewrite ?Htd; reflexivity. }
  rewrite E. unfold valid_response.
  destruct (is_int r 1); [|destruct (is_int r 0)]; cbn [orb].
  - destruct (@set_column_shape p t (predictive_y cls fθ td)) as [p' Hp'];
      [now rewrite predictive_y_shape|].
    rewrite Hp'. exists (OK p'), s1. split; [reflexivity|]. split; [exact U|].
    split; [|discriminate]. intros _. exists p'. split; [reflexivity|].
    now rewrite (set_column_length _ _ _ Hp').
  - destruct (@set_column_shape p t (map (fsub fone) (predictive_y cls fθ td)))
      as [p' Hp']; [now rewrite length_map, predictive_y_shape|].
    rewrite Hp'. exists (OK p'), s1. split; [reflexivity|]. split; [exact U|].
    split; [|discriminate]. intros _. exists p'. split; [reflexivity|].
    now rewrite (set_column_length _ _ _ Hp').
  - exists (Err ResponseLabelError), s1. split; [reflexivity|]. split; [exact U|].
    split; [discriminate|reflexivity].
Qed.

Lemma log_likelihood_loop_spec ts p s :
  points_to θ0 data fθ fd s -> length p = nrows fθ ->
  (forall t, In t ts -> t < nrows fd) ->
  exists res s',
    for_each ts (log_likelihood_trial cls θ0 data R) p s = (res, s') /\
    unchanged s s' /\
    (forallb (valid_at R) ts = true -> exists p', res = OK p') /\
    (forallb (valid_at R) ts = false -> res = Err ResponseLabelError).
Proof using predictive_y_shape R_length.
  revert p s. induction ts as [|t ts IH]; intros p s Hs Hp Hts; cbn [for_each forallb].
  - exists (OK p), s. repeat split; eauto using unchanged_refl; try discriminate.
    exists []. now rewrite app_nil_r.
  - assert (Ht : t < length R) by (rewrite R_length; apply Hts; now left).
    destruct (@nth_error_in_range _ R t Ht) as [r Hr].
    destruct (@log_likelihood_trial_spec t p s r Hs Hr Hp) as (res & s1 & E & U & Hok & Hbad).
    unfold bind at 1. rewrite E. unfold valid_at at 1 3. rewrite Hr.
    destruct (valid_response r) eqn:V; cbn [andb].
    + destruct (Hok eq_refl) as (p' & -> & Hp').
      destruct (IH p' s1 (@points_to_unchanged s s1 Hs U) Hp') as (res2 & s2 & E2 & U2 & H2);
        [intros; apply Hts; now right|].
      exists res2, s2. split; [exact E2|]. split; [eapply unchanged_trans; eauto|exact H2].
    + rewrite (Hbad eq_refl). exists (Err ResponseLabelError), s1.
      repeat split; auto; try discriminate. apply U. apply U.
Qed.

End Responses.

Lemma forallb_valid_at_seq (R : list (@value num)) :
  forallb (valid_at R) (seq 0 (length R)) = forallb valid_response R.
Proof.
  unfold valid_at.
  assert (G : forall pre (l : list (@value num)), forallb (fun t => match nth_error (pre ++ l) t with
                                               | Some r => valid_response r
                                               | None => false end)
                              (seq (length pre) (length l)) = forallb valid_response l).
  { intros pre l. revert pre. induction l as [|x l IH]; intros pre; [reflexivity|].
    cbn [length seq forallb]. rewrite nth_error_app2, Nat.sub_diag by lia. cbn.
    f_equal. specialize (IH (pre ++ [x])). rewrite <- app_assoc, length_app in IH.
    cbn in IH. now rewrite Nat.add_1_r in IH. }
  exact (G [] R).
Qed.


(** The labels the loop accepts.  On a particle population and a trial
    history whose response column [R] has one label per trial, and for a
    [predictive_y] that returns one probability per particle,
    [log_likelihood] raises the response-label error exactly when some
    recorded response fails both identity tests [is 1] and [is 0], and
    returns a vector when none does.  In either case every frame allocated
    before the call, the particle population and the trial history among
    them, is left as it was. *)
Lemma log_likelihood_response_label
    (cls : ModelClass) (s : @state num) (θ0 data : loc) (fθ fd : DataFrame)
    (R : list value) :
  nth_error (heap s) θ0 = Some fθ ->
  nth_error (heap s) data = Some fd ->
  getattr fd "R" = OK R ->
  length R = nrows fd ->
  (forall d, length (predictive_y cls fθ d) = nrows fθ) ->
  (fst (log_likelihood cls θ0 data s) = Err ResponseLabelError <->
     exists r, In r R /\ valid_response r = false) /\
  (forallb valid_response R = true ->
     exists ll, fst (log_likelihood cls θ0 data s) = OK ll) /\
  unchanged s (snd (log_likelihood cls θ0 data s)) /\
  nth_error (heap (snd (log_likelihood cls θ0 data s))) θ0 = Some fθ /\
  nth_error (heap (snd (log_likelihood cls θ0 data s))) data = Some fd.
Proof.
  intros Hθ Hd HR HRlen Hshape.
  assert (U : unchanged s (snd (log_likelihood cls θ0 data s)))
    by (eapply touches_unchanged, touches_log_likelihood).
  destruct (@log_likelihood_loop_spec cls θ0 data fθ fd R Hshape HRlen
              (seq 0 (nrows fd)) (zeros (nrows fθ) (nrows fd)) s)
    as (res & s' & E & _ & Hok & Hbad).
  { split; assumption. }
  { unfold zeros. apply repeat_length. }
  { intros t Ht. apply in_seq in Ht. lia. }
  assert (Eout : fst (log_likelihood cls θ0 data s) =
                 match res with
                 | OK p => OK (sum_axis1 (map (map flog) p))
                 | Err e => Err e
                 end).
  { unfold log_likelihood, bind, load, lift. rewrite Hd, Hθ, HR, E.
    destruct res; reflexivity. }
  rewrite <- HRlen, forallb_valid_at_seq in Hok, Hbad.
  repeat split; try (eapply unchanged_lookup; eassumption); try apply U.
  - intros Herr. destruct (forallb valid_response R) eqn:V.
    + destruct (Hok eq_refl) as [p ->]. rewrite Eout in Herr. discriminate.
    + clear - V. induction R as [|r l IH]; [discriminate|]. cbn in V.
      destruct (valid_response r) eqn:Vr.
      * destruct (IH V) as (r' & Hin & Hr'). exists r'. split; [now right|exact Hr'].
      * exists r. split; [now left|exact Vr].
  - intros (r & Hin & Hr). rewrite Eout, Hbad; [reflexivity|].
    destruct (forallb valid_response R) eqn:V; [|reflexivity].
    rewrite forallb_forall in V. rewrite (V r Hin) in Hr. discriminate.
  - intros V. destruct (Hok V) as [p ->]. rewrite Eout. eauto.
Qed.

(** C2. The response test is an identity test, [R[trial] is 1] and
    [R[trial] is 0], not a comparison of numbers: a response that is not
    the cached Python [int] object fails both, also when it equals 1 or 0.
    So a history that holds a response as a float, 1.0 and 0.0 included,
    makes [log_likelihood] raise the response-label error, although every
    recorded response is 0 or 1.  The particle population and the trial
    history are left as they were. *)
Theorem log_likelihood_refuses_float_labels
    (cls : ModelClass) (s : @state num) (θ0 data : loc) (fθ fd : DataFrame)
    (R : list value) (x : num) :
  nth_error (heap s) θ0 = Some fθ ->
  nth_error (heap s) data = Some fd ->
  getattr fd "R" = OK R ->
  length R = nrows fd ->
  (forall d, length (predictive_y cls fθ d) = nrows fθ) ->
  In (VFloat x) R ->
  fst (log_likelihood cls θ0 data s) = Err ResponseLabelError /\
  nth_error (heap (snd (log_likelihood cls θ0 data s))) θ0 = Some fθ /\
  nth_error (heap (snd (log_likelihood cls θ0 data s))) data = Some fd.
Proof.
  intros Hθ Hd HR HRlen Hshape Hin.
  destruct (@log_likelihood_response_label cls s θ0 data fθ fd R Hθ Hd HR HRlen Hshape)
    as (Hiff & _ & _ & Hθ' & Hd').
  split; [|split; assumption].
  apply Hiff. exists (VFloat x). split; [exact Hin|reflexivity].
Qed.

End WithFloats.

Import ModelVectors.

(** The decomposition on two particles and two trials. *)
Lemma p_log_pdf_additive_witness :
  nth_error (heap s0) 0 = Some particles0 /\
  exists ll lp s2,
    p_log_pdf cls0 0 1 s0 = (OK (zip_with fadd ll lp), s2) /\
    length ll = 2 /\ length lp = 2.
Proof.
  split; [reflexivity|].
  destruct (@p_log_pdf_additive Z Z_ops cls0
              s0 0 1 particles0 eq_refl) as [H _].
  destruct (H _ _ _ _ eq_refl eq_refl) as (H1 & H2 & H3 & _).
  do 3 eexists. split; [exact H1|]. split; [exact H2|exact H3].
Defined.

(** The history whose second response is 2 is refused. *)
Lemma log_likelihood_response_label_witness :
  fst (log_likelihood cls0 0 2 s0) = Err ResponseLabelError /\
  unchanged s0 (snd (log_likelihood cls0 0 2 s0)).
Proof.
  destruct (@log_likelihood_response_label Z Z_ops cls0
              s0 0 2 particles0 trials_bad
              [VInt 1%Z; VInt 2%Z] eq_refl eq_refl eq_refl eq_refl
              (fun d => eq_refl)) as (H & _ & U & _).
  split; [|exact U]. apply H. exists (VInt 2%Z). split; [right; left|]; reflexivity.
Defined.

(** The history answered 1.0 then 0.0: every response equals a label, and
    the call raises. *)
Lemma log_likelihood_refuses_float_labels_witness :
  Forall equals_label [VFloat 1%Z; VFloat 0%Z] /\
  getattr trials_float "R" = OK [VFloat 1%Z; VFloat 0%Z] /\
  fst (log_likelihood cls0 0 1 s_float_labels) = Err ResponseLabelError.
Proof.
  split.
  { constructor; [left; reflexivity|].
    constructor; [right; reflexivity|constructor]. }
  split; [reflexivity|].
  apply (@log_likelihood_refuses_float_labels Z Z_ops cls0 s_float_labels 0 1
           particles0 trials_float [VFloat 1%Z; VFloat 0%Z] 1%Z
           eq_refl eq_refl eq_refl eq_refl (fun d => eq_refl)).
  left. reflexivity.
Defined.

End ModelFacts.

(** * Properties of [darc/designs.py] *)

Module DesignsFacts.

Import Designs.
Local Open Scope Q_scope.

(** ** Comparisons *)

Lemma Qltb_lt x y : Qltb x y = true <-> x < y.
Proof.
  unfold Qltb. rewrite negb_true_iff. split.
  - intros H. apply Qnot_le_lt. intros Hle. apply Qle_bool_iff in Hle. congruence.
  - intros H. destruct (Qle_bool y x) eqn:E; [|reflexivity].
    apply Qle_bool_iff in E. exfalso. exact (Qlt_not_le _ _ H E).
Qed.

Lemma Qgtb_lt x y : Qgtb x y = true <-> y < x.
Proof. apply Qltb_lt. Qed.

Lemma design_eqb_refl d : design_eqb d d = true.
Proof. unfold design_eqb. now rewrite !Qeq_bool_refl. Qed.

Lemma design_eqb_sym a b : design_eqb a b = true -> design_eqb b a = true.
Proof.
  unfold design_eqb. rewrite !andb_true_iff.
  intros (((((H1 & H2) & H3) & H4) & H5) & H6). auto 10 using Qeq_bool_sym.
Qed.

Lemma design_eqb_trans a b c :
  design_eqb a b = true -> design_eqb b c = true -> design_eqb a c = true.
Proof.
  unfold design_eqb. rewrite !andb_true_iff.
  intros (((((H1 & H2) & H3) & H4) & H5) & H6) (((((G1 & G2) & G3) & G4) & G5) & G6).
  repeat split; eapply Qeq_bool_trans; eassumption.
Qed.

(** ** Frames with a range index *)

Lemma range_index_label n ds r : In r (range_index n ds) -> (n <= label r)%Z.
Proof.
  revert n. induction ds as [|d ds IH]; intros n; cbn; [tauto|].
  intros [<-|H]; cbn; [lia|]. apply IH in H. lia.
Qed.

Lemma range_index_NoDup n ds : NoDup (map label (range_index n ds)).
Proof.
  revert n. induction ds as [|d ds IH]; intros n; cbn; constructor; [|apply IH].
  intros H. apply in_map_iff in H as (r & Hr & Hin).
  apply range_index_label in Hin. lia.
Qed.

Lemma range_index_designs n ds : map design_of (range_index n ds) = ds.
Proof.
  revert n. induction ds as [|d ds IH]; intros n; cbn; [reflexivity|]. now rewrite IH.
Qed.

Lemma NoDup_map_filter {A B} (f : A -> B) (p : A -> bool) l :
  NoDup (map f l) -> NoDup (map f (filter p l)).
Proof.
  induction l as [|a l IH]; cbn; [auto|]. intros H. inversion H as [|? ? Hn Hd]; subst.
  destruct (p a); cbn; auto. constructor; auto.
  intros Hin. apply Hn. apply in_map_iff in Hin as (x & <- & Hx).
  apply in_map. now apply filter_In in Hx.
Qed.

(** On a frame whose labels are distinct, dropping the labels of the rows
    under a mask removes exactly those rows. *)
Lemma drop_labels_where mask D :
  NoDup (map label D) ->
  drop (labels_where mask D) D = filter (fun r => negb (mask (design_of r))) D.
Proof.
  intros Hnd. unfold drop, labels_where. apply filter_ext_in. intros r Hr. f_equal.
  destruct (mask (design_of r)) eqn:Hm.
  - apply existsb_exists. exists (label r). split; [|apply Z.eqb_refl].
    apply in_map. apply filter_In. auto.
  - destruct (existsb _ _) eqn:E; [|reflexivity]. exfalso.
    apply existsb_exists in E as (l & Hl & Heq). apply Z.eqb_eq in Heq. subst l.
    apply in_map_iff in Hl as (r' & Hlbl & Hr'). apply filter_In in Hr' as [Hr' Hm'].
    assert (r' = r); [|congruence].
    clear - Hnd Hr Hr' Hlbl. induction D as [|x D IH]; [contradiction|].
    cbn in Hnd. inversion Hnd as [|? ? Hn Hd]; subst.
    destruct Hr as [->|Hr], Hr' as [->|Hr']; auto.
    + exfalso. apply Hn. rewrite <- Hlbl. now apply in_map.
    + exfalso. apply Hn. rewrite Hlbl. now apply in_map.
Qed.

Lemma filter_design_of (g : design -> bool) D :
  map design_of (filter (fun r => g (design_of r)) D) = filter g (map design_of D).
Proof.
  induction D as [|r D IH]; cbn; [reflexivity|]. destruct (g (design_of r)); cbn; now rewrite IH.
Qed.

Lemma filter_filter {A} (f g : A -> bool) l :
  filter f (filter g l) = filter (fun x => g x && f x) l.
Proof.
  induction l as [|a l IH]; cbn; [reflexivity|].
  destruct (g a); cbn; [destruct (f a)|]; now rewrite IH.
Qed.

(** ** [itertools.product] against the Cartesian product *)

Lemma map_flat_map {A B C} (g : B -> C) (f : A -> list B) l :
  map g (flat_map f l) = flat_map (fun a => map g (f a)) l.
Proof. induction l as [|a l IH]; cbn; [reflexivity|]. now rewrite map_app, IH. Qed.

Lemma map_list_prod {A B C} (g : A * B -> C) l l' :
  map g (list_prod l l') = flat_map (fun a => map (fun b => g (a, b)) l') l.
Proof.
  induction l as [|a l IH]; cbn; [reflexivity|]. now rewrite map_app, map_map, IH.
Qed.

Lemma product6_cartesian self :
  map (fun '(ra, da, pa, rb, db, pb) =>
         {| RA := ra; DA := da; PA := pa; RB := rb; DB := db; PB := pb |})
      (product6 (_RA self) (_DA self) (_PA self) (_RB self) (_DB self) (_PB self))
  = cartesian_product self.
Proof.
  unfold cartesian_product, product6.
  rewrite map_flat_map, map_list_prod. apply flat_map_ext. intros a.
  rewrite map_flat_map, map_list_prod. apply flat_map_ext. intros b.
  rewrite map_flat_map, map_list_prod. apply flat_map_ext. intros c.
  rewrite map_flat_map, map_list_prod. apply flat_map_ext. intros d.
  rewrite map_flat_map, map_list_prod. apply flat_map_ext. intros e.
  now rewrite map_map.
Qed.

Lemma cartesian_product_In self d :
  In d (cartesian_product self) <->
  In (RA d) (_RA self) /\ In (DA d) (_DA self) /\ In (PA d) (_PA self) /\
  In (RB d) (_RB self) /\ In (DB d) (_DB self) /\ In (PB d) (_PB self).
Proof.
  unfold cartesian_product. rewrite in_map_iff. split.
  - intros ([ra [da [pa [rb [db pb]]]]] & <- & Hin).
    repeat (apply in_prod_iff in Hin as [? Hin]). cbn. tauto.
  - intros (H1 & H2 & H3 & H4 & H5 & H6).
    exists (RA d, (DA d, (PA d, (RB d, (DB d, PB d))))).
    split; [now destruct d|]. repeat (apply in_prod_iff; split; auto).
Qed.

Lemma feasible_iff assume d :
  feasible assume d = true <->
  ~ DB d < DA d /\ (assume = true -> ~ RB d < RA d).
Proof.
  unfold feasible. rewrite andb_true_iff, !negb_true_iff. split.
  - intros [H1 H2]. split.
    + intros H. apply Qgtb_lt in H. congruence.
    + intros -> H. apply Qltb_lt in H. cbn in H2. congruence.
  - intros [H1 H2]. split.
    + destruct (Qgtb (DA d) (DB d)) eqn:E; [|reflexivity].
      apply Qgtb_lt in E. contradiction.
    + destruct assume; [|reflexivity]. cbn.
      destruct (Qltb (RB d) (RA d)) eqn:E; [|reflexivity].
      apply Qltb_lt in E. exfalso. now apply H2.
Qed.

(** C5. With the absolute-reward parameterisation ([RA_over_RB] empty) the
    generated table is, row for row and in order, the Cartesian product of
    the value lists [(RA, DA, PA, RB, DB, PB)] without the rows where
    [DA > DB] and, when [assume_discounting] is set, without the rows where
    [RB < RA]: a design is in the table exactly when each attribute is in
    its list and neither condition removes it. *)
Theorem generate_all_possible_designs_table (self : DARCDesignGenerator) (assume : bool) :
  _RA_over_RB self = [] ->
  exists self',
    generate_all_possible_designs self assume = OK self' /\
    map design_of (all_possible_designs self')
      = filter (feasible assume) (cartesian_product self) /\
    (forall d, In d (map design_of (all_possible_designs self')) <->
       In (RA d) (_RA self) /\ In (DA d) (_DA self) /\ In (PA d) (_PA self) /\
       In (RB d) (_RB self) /\ In (DB d) (_DB self) /\ In (PB d) (_PB self) /\
       ~ DB d < DA d /\ (assume = true -> ~ RB d < RA d)).
Proof.
  intros Hratio. unfold generate_all_possible_designs, initial_designs.
  rewrite Hratio. cbn [py_not rbind]. eexists. split; [reflexivity|].
  cbn [all_possible_designs set_all_possible_designs].
  set (D := range_index 0 _).
  assert (HD : map design_of D = cartesian_product self).
  { unfold D. now rewrite range_index_designs, product6_cartesian. }
  assert (Hnd : NoDup (map label D)) by apply range_index_NoDup.
  assert (Htable :
    map design_of
      (if assume
       then drop (labels_where (fun d => Qltb (RB d) (RA d))
                    (drop (labels_where (fun d => Qgtb (DA d) (DB d)) D) D))
                 (drop (labels_where (fun d => Qgtb (DA d) (DB d)) D) D)
       else drop (labels_where (fun d => Qgtb (DA d) (DB d)) D) D)
    = filter (feasible assume) (cartesian_product self)).
  { rewrite (@drop_labels_where (fun d => Qgtb (DA d) (DB d)) D Hnd). destruct assume.
    - rewrite drop_labels_where by now apply NoDup_map_filter.
      rewrite (filter_design_of (fun d => negb (Qltb (RB d) (RA d)))),
              (filter_design_of (fun d => negb (Qgtb (DA d) (DB d)))),
              filter_filter, HD.
      apply filter_ext. intros d. unfold feasible. reflexivity.
    - rewrite (filter_design_of (fun d => negb (Qgtb (DA d) (DB d)))), HD.
      apply filter_ext. intros d. unfold feasible. cbn. now rewrite andb_true_r. }
  split; [exact Htable|].
  intros d. rewrite Htable, filter_In, cartesian_product_In, feasible_iff. tauto.
Qed.

Import DesignVectors.

Lemma generate_all_possible_designs_table_witness :
  _RA_over_RB absolute_rewards = [] /\
  exists self',
    generate_all_possible_designs absolute_rewards true = OK self' /\
    map design_of (all_possible_designs self')
      = filter (feasible true) (cartesian_product absolute_rewards).
Proof.
  split; [reflexivity|].
  destruct (generate_all_possible_designs_table absolute_rewards true eq_refl)
    as (self' & H1 & H2 & _).
  exists self'. split; assumption.
Defined.

(** C7. For the same value lists, the table generated with
    [assume_discounting] has at most as many rows as the table generated
    without it. *)
Theorem assume_discounting_monotone (self g1 g0 : DARCDesignGenerator) :
  generate_all_possible_designs self true = OK g1 ->
  generate_all_possible_designs self false = OK g0 ->
  (length (all_possible_designs g1) <= length (all_possible_designs g0))%nat.
Proof.
  unfold generate_all_possible_designs.
  destruct (initial_designs self) as [D|e]; cbn [rbind]; [|discriminate].
  intros [= <-] [= <-]. cbn [all_possible_designs set_all_possible_designs].
  unfold drop at 1. apply filter_length_le.
Qed.

Lemma assume_discounting_monotone_witness :
  exists g1 g0,
    generate_all_possible_designs absolute_rewards true = OK g1 /\
    generate_all_possible_designs absolute_rewards false = OK g0 /\
    (length (all_possible_designs g1) <= length (all_possible_designs g0))%nat.
Proof.
  do 2 eexists. split; [reflexivity|]. split; [reflexivity|].
  apply (@assume_discounting_monotone absolute_rewards); reflexivity.
Defined.

(** C4. The type validation accepts every combination of lists, also [RA]
    and [RA_over_RB] both empty or both non-empty.  Constructed with both
    empty (the defaults) the generator is returned with an empty design
    table; with both non-empty the construction stops inside
    [generate_all_possible_designs], on the unbound name [D]. *)
Theorem input_type_validation_accepts_both_and_neither :
  (forall RA DA PA RB DB PB RA_over_RB,
      _input_type_validation RA DA PA RB DB PB RA_over_RB = OK tt) /\
  (exists g, __init__ [0] DEFAULT_DB [] [100] [] [1] [1] None 20 false = OK g /\
             all_possible_designs g = []) /\
  __init__ [0] [30] [50] [100] [1 # 2] [1] [1] None 20 false
    = Err (UnboundLocalError "D").
Proof.
  split; [|split].
  - intros ra da pa rb db pb ra_over_rb. unfold _input_type_validation, is_False.
    destruct (py_not ra), (py_not ra_over_rb); reflexivity.
  - eexists. split; [vm_compute; reflexivity|reflexivity].
  - vm_compute. reflexivity.
Qed.

(** ** Removing the trials already run *)

Lemma occurrences_app d t u :
  occurrences d (t ++ u) = (occurrences d t + occurrences d u)%nat.
Proof. unfold occurrences. now rewrite filter_app, length_app. Qed.

Lemma occurs_in_occurrences d t :
  occurs_in d t = negb (Nat.eqb (occurrences d t) 0).
Proof.
  unfold occurs_in, occurrences. induction t as [|r t IH]; cbn; [reflexivity|].
  destruct (design_eqb d (design_of r)); cbn; [reflexivity|exact IH].
Qed.

Lemma occurrences_In r t : In r t -> (1 <= occurrences (design_of r) t)%nat.
Proof.
  unfold occurrences. intros H.
  assert (Hin : In r (filter (fun r' => design_eqb (design_of r) (design_of r')) t))
    by (apply filter_In; split; [exact H|apply design_eqb_refl]).
  destruct (filter _ t); [contradiction|cbn; lia].
Qed.

Lemma filter_nothing {A} (f : A -> bool) l :
  (forall x, In x l -> f x = false) -> filter f l = [].
Proof.
  induction l as [|a l IH]; cbn; [reflexivity|]. intros H.
  rewrite (H a (or_introl eq_refl)). apply IH. auto.
Qed.

(** C10. When no row of [design_set] is repeated and every row of
    [exclude_these] is one of its rows, [remove_trials_already_run] returns
    exactly the rows of [design_set] that do not occur in [exclude_these].
    Without the second condition a row of [exclude_these] that occurs
    once in the two tables together is returned as well, so the result
    need not be part of [design_set]. *)
Theorem remove_trials_already_run_spec (design_set exclude_these : list row) :
  ((forall r, In r design_set -> occurrences (design_of r) design_set = 1%nat) ->
   (forall e, In e exclude_these -> occurs_in (design_of e) design_set = true) ->
   remove_trials_already_run design_set exclude_these
     = filter (fun r => negb (occurs_in (design_of r) exclude_these)) design_set) /\
  (forall e, In e exclude_these ->
     occurrences (design_of e) (design_set ++ exclude_these) = 1%nat ->
     In e (remove_trials_already_run design_set exclude_these)) /\
  (exists ds ex r, In r (remove_trials_already_run ds ex) /\
                   occurs_in (design_of r) ds = false).
Proof.
  unfold remove_trials_already_run, drop_duplicates_keep_False. split; [|split].
  - intros Hnodup Hsub. rewrite filter_app.
    replace (filter _ exclude_these) with (@nil row).
    + rewrite app_nil_r. apply filter_ext_in. intros r Hr.
      rewrite occurrences_app, (Hnodup r Hr), occurs_in_occurrences, negb_involutive.
      reflexivity.
    + symmetry. apply filter_nothing. intros e He.
      rewrite occurrences_app. apply Nat.eqb_neq.
      pose proof (Hsub e He) as H1.
      rewrite occurs_in_occurrences, negb_true_iff, Nat.eqb_neq in H1.
      pose proof (occurrences_In _ _ He) as H2. lia.
  - intros e He Hocc. apply filter_In. split; [apply in_or_app; now right|].
    now apply Nat.eqb_eq.
  - exists [], (range_index 0 [design_50_now]), {| label := 0%Z; design_of := design_50_now |}.
    split; [left; reflexivity|reflexivity].
Qed.

Lemma remove_trials_already_run_spec_witness :
  remove_trials_already_run two_designs (drop_R (data second_trial))
    = filter (fun r => negb (occurs_in (design_of r) (drop_R (data second_trial))))
        two_designs.
Proof.
  apply (proj1 (remove_trials_already_run_spec two_designs (drop_R (data second_trial)))).
  - intros r [<-|[<-|[]]]; reflexivity.
  - intros e [<-|[]]; reflexivity.
Defined.

(** ** The predictability filter *)

Lemma annotate_length t values : length (annotate t values) = length t.
Proof. apply length_map. Qed.

(** With two candidates or more the frame has at least 16 cells, which is
    more than 10 plus the number of predictable rows: the filter never
    falls back to the ten designs closest to 0.5. *)
Lemma fallback_needs_fewer_than_two (t : list row) (m : model) :
  (2 <= length t)%nat ->
  remove_highly_predictable_designs t m =
    let a := annotate t (predictive_y_at_point_estimate m t) in
    let a := a_drop (a_labels_where (p_below threshold) a) a in
    a_drop (a_labels_where (p_above (1 - threshold)) a) a.
Proof.
  intros Hlen. unfold remove_highly_predictable_designs.
  set (a := annotate t _).
  assert (Hgt : ((Z.of_nat (size a) - Z.of_nat (length (filter highly_predictable a)))
                 >? 10)%Z = true).
  { apply Z.gtb_lt. pose proof (filter_length_le highly_predictable a) as Hle.
    unfold size. unfold a at 1. rewrite annotate_length. cbn [length design_columns].
    unfold a in Hle at 2. rewrite annotate_length in Hle. lia. }
  now rewrite Hgt.
Qed.

(** C3, on two candidates that the point estimate predicts with
    probability 0: both are marked highly predictable, the count
    [n_not_predictable] is 14 and the filter returns no design, where the
    ten (here two) designs closest to 0.5 were to be kept. *)
Theorem predictability_filter_starves_optimiser :
  map highly_predictable
      (annotate two_designs (predictive_y_at_point_estimate certain_model two_designs))
    = [true; true] /\
  (Z.of_nat (size (annotate two_designs
                     (predictive_y_at_point_estimate certain_model two_designs)))
   - 2 = 14)%Z /\
  remove_highly_predictable_designs two_designs certain_model = [] /\
  Nat.min 10 (length two_designs) = 2%nat.
Proof. repeat split; vm_compute; reflexivity. Qed.

(** ** The filter pipeline only removes rows *)

Lemma occurrences_match d x t :
  In x t -> design_eqb d (design_of x) = true -> (1 <= occurrences d t)%nat.
Proof.
  unfold occurrences. intros Hin Heq.
  assert (H : In x (filter (fun r => design_eqb d (design_of r)) t))
    by (apply filter_In; auto).
  destruct (filter _ t); [contradiction|cbn; lia].
Qed.

Lemma remove_trials_already_run_excludes ds ex r e :
  (forall e, In e ex -> occurs_in (design_of e) ds = true) ->
  In r (remove_trials_already_run ds ex) -> In e ex ->
  design_eqb (design_of r) (design_of e) = false.
Proof.
  intros Hsub Hr He. destruct (design_eqb (design_of r) (design_of e)) eqn:E; [|reflexivity].
  exfalso. unfold remove_trials_already_run, drop_duplicates_keep_False in Hr.
  apply filter_In in Hr as [_ Hocc]. apply Nat.eqb_eq in Hocc.
  rewrite occurrences_app in Hocc.
  pose proof (occurrences_match _ _ _ He E) as H1.
  pose proof (Hsub e He) as H2. unfold occurs_in in H2.
  apply existsb_exists in H2 as (d & Hd & Hed).
  pose proof (occurrences_match _ _ _ Hd (design_eqb_trans _ _ _ E Hed)) as H3. lia.
Qed.

Lemma choose_one_along_design_dimension_incl draw t dim out :
  choose_one_along_design_dimension draw t dim = OK out -> incl out t.
Proof.
  unfold choose_one_along_design_dimension. destruct (column dim); [|discriminate].
  destruct (random_choice _ _); cbn [rbind]; [|discriminate].
  intros [= <-] r Hr. now apply filter_In in Hr.
Qed.

Lemma firstn_incl {A} n (l : list A) : incl (firstn n l) l.
Proof.
  revert l. induction n as [|n IH]; intros [|a l] x; cbn; try tauto.
  intros [->|H]; [now left|right; now apply IH].
Qed.

Lemma insert_sorted_In x r t : In x (insert_sorted r t) -> x = r \/ In x t.
Proof.
  induction t as [|h t IH]; cbn; [intuition|].
  destruct (badness_le r h); cbn; intuition.
Qed.

Lemma sort_values_incl t : incl (sort_values t) t.
Proof.
  induction t as [|r t IH]; intros x; cbn; [tauto|].
  intros H. apply insert_sorted_In in H as [->|H]; [now left|right; now apply IH].
Qed.

Lemma remove_highly_predictable_designs_from t m r :
  In r (remove_highly_predictable_designs t m) ->
  exists r0, In r0 t /\ a_design r = design_of r0 /\ a_label r = label r0.
Proof.
  assert (Hann : forall v x, In x (annotate t v) ->
            exists r0, In r0 t /\ a_design x = design_of r0 /\ a_label x = label r0).
  { intros v x Hx. apply in_map_iff in Hx as (r0 & <- & Hr0). eauto. }
  unfold remove_highly_predictable_designs. destruct (_ >? 10)%Z.
  - intros H. unfold a_drop in H. apply filter_In in H as [H _].
    apply filter_In in H as [H _]. eauto.
  - intros H. apply firstn_incl, sort_values_incl in H.
    apply in_map_iff in H as (x & <- & Hx). cbn. eauto.
Qed.

(** Where the exclusion does run.  With [NO_REPEATS] set, from the third
    trial on (trial index above 1) and when every design of the history is
    a row of the design table, no row of the allowable set returned by
    [refine_design_space] equals a design of the history on all design
    columns. *)
Theorem no_repeats_from_third_trial
    (self : DARCDesignGenerator) (m : model) (draw : nat) (allowable : list arow) :
  NO_REPEATS self = true ->
  (1 < trial self)%Z ->
  (forall h, In h (data self) ->
     occurs_in (t_design h) (all_possible_designs self) = true) ->
  refine_design_space self m draw = OK allowable ->
  forall r h, In r allowable -> In h (data self) ->
    design_eqb (a_design r) (t_design h) = false.
Proof.
  intros Hflag Htrial Hsub Hrefine r h Hr Hh.
  unfold refine_design_space in Hrefine.
  rewrite Hflag, (proj2 (Z.gtb_lt _ _) Htrial) in Hrefine. cbn [andb] in Hrefine.
  set (kept := remove_trials_already_run _ _) in Hrefine.
  assert (Hkept : forall r0, In r0 kept ->
            design_eqb (design_of r0) (t_design h) = false).
  { intros r0 Hr0.
    apply (@remove_trials_already_run_excludes (all_possible_designs self)
             (drop_R (data self)) r0 {| label := t_label h; design_of := t_design h |}).
    - intros e He. apply in_map_iff in He as (h' & <- & Hh'). cbn. auto.
    - exact Hr0.
    - apply in_map_iff. exists h. auto. }
  destruct (random_choice_dimension self) as [dim|].
  - destruct (choose_one_along_design_dimension draw kept dim) as [chosen|] eqn:E;
      cbn [rbind] in Hrefine; [|discriminate].
    injection Hrefine as <-.
    apply remove_highly_predictable_designs_from in Hr as (r0 & Hr0 & -> & _).
    apply Hkept. eapply choose_one_along_design_dimension_incl; eauto.
  - cbn [rbind] in Hrefine. injection Hrefine as <-.
    apply remove_highly_predictable_designs_from in Hr as (r0 & Hr0 & -> & _).
    now apply Hkept.
Qed.

Lemma no_repeats_from_third_trial_witness :
  exists allowable,
    refine_design_space third_trial undecided_model 0 = OK allowable /\
    map a_design allowable = [design_90_now] /\
    forall r h, In r allowable -> In h (data third_trial) ->
      design_eqb (a_design r) (t_design h) = false.
Proof.
  eexists. split; [vm_compute; reflexivity|]. split; [reflexivity|].
  apply (@no_repeats_from_third_trial third_trial undecided_model 0).
  - reflexivity.
  - reflexivity.
  - intros h [<-|[<-|[]]]; reflexivity.
  - vm_compute; reflexivity.
Defined.

(** C6.  The exclusion of past designs is guarded by [self.trial>1], while
    the trial counter is 0-based (see the budget test of [get_next_design]):
    on the second trial (trial index 1), with [NO_REPEATS] set and the
    design of the first trial in the history, the exclusion is skipped.
    The design already run is still in the allowable set, and an optimiser
    that settles for the first allowable design presents it again. *)
Theorem no_repeats_skipped_on_second_trial :
  NO_REPEATS second_trial = true /\
  trial second_trial = 1%Z /\
  map t_design (data second_trial) = [design_50_now] /\
  (exists allowable r h,
     refine_design_space second_trial undecided_model 0 = OK allowable /\
     In r allowable /\ In h (data second_trial) /\
     design_eqb (a_design r) (t_design h) = true) /\
  get_next_design first_design second_trial undecided_model 0
  = OK (Some {| ProspectA := {| reward := RA design_50_now;
                                delay := DA design_50_now;
                                prob := PA design_50_now |};
                ProspectB := {| reward := RB design_50_now;
                                delay := DB design_50_now;
                                prob := PB design_50_now |} |}).
Proof.
  split; [reflexivity|]. split; [reflexivity|]. split; [reflexivity|]. split.
  - do 3 eexists. split; [vm_compute; reflexivity|].
    split; [left; reflexivity|]. split; [left; reflexivity|]. reflexivity.
  - vm_compute. reflexivity.
Qed.

(** A design of the history that the table does not hold comes back as an
    allowable design: [drop_duplicates] finds it once. *)
Lemma no_repeats_foreign_history_row :
  exists allowable,
    refine_design_space foreign_history undecided_model 0 = OK allowable /\
    map a_design allowable = [design_80_now; design_90_now].
Proof. eexists. split; [vm_compute; reflexivity|reflexivity]. Qed.

(** ** The trial budget *)

(** C8, as the code has it.  Once the trial index has reached
    [max_trials], [get_next_design] answers [None] whatever the model, the
    random draw and the optimiser are, also failing ones: none of them is
    run.  Below [max_trials], when the filters return an allowable set and
    the optimiser a non-empty frame of rows of that set, the answer is the
    first of these rows as a design. *)
Theorem get_next_design_budget
    (design_optimisation : list arow -> result (list arow * Q))
    (self : DARCDesignGenerator) (m : model) (draw : nat) :
  ((max_trials self <= trial self)%Z ->
     get_next_design design_optimisation self m draw = OK None) /\
  ((trial self < max_trials self)%Z ->
     forall allowable chosen utility,
       refine_design_space self m draw = OK allowable ->
       design_optimisation allowable = OK (chosen, utility) ->
       chosen <> [] ->
       incl chosen allowable ->
       exists D, get_next_design design_optimisation self m draw = OK (Some D) /\
                 chosen_from D allowable).
Proof.
  unfold get_next_design. split.
  - intros H. now rewrite (proj2 (Z.gtb_lt _ _)) by lia.
  - intros H allowable chosen utility Hrefine Hopt Hne Hincl.
    destruct (trial self >? max_trials self - 1)%Z eqn:E;
      [apply Z.gtb_lt in E; lia|].
    rewrite Hrefine. cbn [rbind]. rewrite Hopt. cbn [rbind fst].
    destruct chosen as [|r rest]; [contradiction|]. cbn.
    eexists. split; [reflexivity|]. exists r. split; [apply Hincl; now left|reflexivity].
Qed.

Lemma get_next_design_budget_witness :
  get_next_design first_design third_trial undecided_model 0
    = OK (Some {| ProspectA := {| reward := 90; delay := 0; prob := 1 |};
                  ProspectB := {| reward := 100; delay := 30; prob := 1 |} |}).
Proof.
  destruct (get_next_design_budget first_design third_trial undecided_model 0)
    as [_ H].
  destruct (H eq_refl _ _ _ eq_refl eq_refl ltac:(discriminate)
              ltac:(apply firstn_incl)) as (D & HD & _).
  rewrite HD. vm_compute in HD. congruence.
Defined.

(** With an empty design table (the one the default arguments give) there
    is no allowable design to return below [max_trials]: the call raises. *)
Lemma get_next_design_empty_table :
  __init__ [0] DEFAULT_DB [] [100] [] [1] [1] None 20 false = OK default_generator /\
  (trial default_generator < max_trials default_generator)%Z /\
  refine_design_space default_generator undecided_model 0 = OK [] /\
  get_next_design first_design default_generator undecided_model 0
    = Err (IndexError "index 0 is out of bounds for axis 0 with size 0") /\
  ~ (exists design_optimisation D allowable,
       refine_design_space default_generator undecided_model 0 = OK allowable /\
       get_next_design design_optimisation default_generator undecided_model 0
         = OK (Some D) /\
       chosen_from D allowable).
Proof.
  split; [vm_compute; reflexivity|].
  split; [reflexivity|]. split; [reflexivity|]. split; [reflexivity|].
  intros (opt & D & allowable & Hrefine & _ & r & Hr & _).
  vm_compute in Hrefine. injection Hrefine as <-. exact Hr.
Qed.

End DesignsFacts.

(** * Further properties of [darc/designs.py] *)

Module DesignsMore.

Import Designs DesignVectors.
Import DesignsFacts.
Local Open Scope Q_scope.

(** ** Value validation *)

Lemma Qltb_false x y : Qltb x y = false <-> y <= x.
Proof.
  unfold Qltb. rewrite negb_false_iff. apply Qle_bool_iff.
Qed.

Lemma any_outside_unit_false l :
  any_outside_unit l = false <-> Forall in_unit_interval l.
Proof.
  unfold any_outside_unit, in_unit_interval. rewrite Forall_forall. split.
  - intros H x Hx. destruct (Qltb x 0 || Qgtb x 1) eqn:E.
    + assert (existsb (fun x => Qltb x 0 || Qgtb x 1) l = true)
        by (apply existsb_exists; eauto). congruence.
    + apply orb_false_iff in E as [E1 E2]. split; now apply Qltb_false.
  - intros H. destruct (existsb _ l) eqn:E; [|reflexivity].
    apply existsb_exists in E as (x & Hx & E). destruct (H x Hx) as [H0 H1].
    apply orb_true_iff in E as [E|E]; apply Qltb_lt in E;
      exfalso; eapply Qlt_not_le; eauto.
Qed.

Lemma any_negative_false l : any_negative l = false <-> Forall (Qle 0) l.
Proof.
  unfold any_negative. rewrite Forall_forall. split.
  - intros H x Hx. destruct (Qltb x 0) eqn:E; [|now apply Qltb_false].
    assert (existsb (fun x => Qltb x 0) l = true) by (apply existsb_exists; eauto).
    congruence.
  - intros H. destruct (existsb _ l) eqn:E; [|reflexivity].
    apply existsb_exists in E as (x & Hx & E). apply Qltb_lt in E.
    exfalso. eapply Qlt_not_le; eauto.
Qed.

(** The validation on floats: what passes. *)

Lemma existsb_false_Forall {A} (f : A -> bool) (P : A -> Prop) l :
  (forall x, f x = false <-> P x) -> existsb f l = false <-> Forall P l.
Proof.
  intros H. induction l as [|x l IH]; cbn [existsb].
  - split; [constructor|reflexivity].
  - rewrite orb_false_iff, IH, H. split.
    + intros [? ?]. now constructor.
    + intros HF. inversion HF; subst. auto.
Qed.

Lemma float64_any_outside_unit_false l :
  Float64.any_outside_unit l = false <-> Forall Float64.in_unit_interval_or_nan l.
Proof.
  apply existsb_false_Forall. intros [q| | |]; cbn; try tauto;
    try (split; [discriminate|contradiction]).
  rewrite orb_false_iff, !Qltb_false. tauto.
Qed.

Lemma float64_any_negative_false l :
  Float64.any_negative l = false <-> Forall Float64.not_negative_or_nan l.
Proof.
  apply existsb_false_Forall. intros [q| | |]; cbn; try tauto;
    try (split; [discriminate|contradiction]).
  apply Qltb_false.
Qed.

Lemma existsb_map_Finite (f : Float64.float64 -> bool) l :
  existsb f (map Float64.Finite l) = existsb (fun q => f (Float64.Finite q)) l.
Proof. induction l as [|q l IH]; cbn; [reflexivity|now rewrite IH]. Qed.

(** X1. Run on [float64] values, the value validation returns normally
    exactly when every value of [PA], [PB] and [RA_over_RB] is NaN or lies
    in [0, 1] and every value of [DA] and [DB] is NaN or not negative (plus
    infinity included): NaN passes every test, since comparisons with it
    are False.  Every other input is refused with a [ValueError].  On
    ordinary numbers the validation is the one on rationals that the
    generator above is built on. *)
Theorem input_value_validation_accepts (pa pb da db ra_over_rb : list Float64.float64) :
  (Float64._input_value_validation pa pb da db ra_over_rb = OK tt <->
     Forall Float64.in_unit_interval_or_nan pa /\
     Forall Float64.in_unit_interval_or_nan pb /\
     Forall Float64.not_negative_or_nan da /\
     Forall Float64.not_negative_or_nan db /\
     Forall Float64.in_unit_interval_or_nan ra_over_rb) /\
  (Float64._input_value_validation pa pb da db ra_over_rb = OK tt \/
   exists msg,
     Float64._input_value_validation pa pb da db ra_over_rb = Err (ValueError msg)) /\
  (forall qa qb qda qdb qr : list Q,
     pa = map Float64.Finite qa -> pb = map Float64.Finite qb ->
     da = map Float64.Finite qda -> db = map Float64.Finite qdb ->
     ra_over_rb = map Float64.Finite qr ->
     Float64._input_value_validation pa pb da db ra_over_rb
     = _input_value_validation qa qb qda qdb qr).
Proof.
  split; [|split].
  - unfold Float64._input_value_validation.
    rewrite <- !float64_any_outside_unit_false, <- !float64_any_negative_false.
    destruct (Float64.any_outside_unit pa), (Float64.any_outside_unit pb),
      (Float64.any_negative da), (Float64.any_negative db),
      (Float64.any_outside_unit ra_over_rb);
      (split; [try discriminate; intuition congruence
              |intros (? & ? & ? & ? & ?); try discriminate; reflexivity]).
  - unfold Float64._input_value_validation.
    destruct (Float64.any_outside_unit pa), (Float64.any_outside_unit pb),
      (Float64.any_negative da), (Float64.any_negative db),
      (Float64.any_outside_unit ra_over_rb); eauto.
  - intros qa qb qda qdb qr -> -> -> -> ->.
    unfold Float64._input_value_validation, _input_value_validation,
      Float64.any_outside_unit, Float64.any_negative, any_outside_unit, any_negative.
    rewrite !existsb_map_Finite. reflexivity.
Qed.

(** NaN for a probability and a delay, an infinite delay: accepted. *)
Lemma input_value_validation_accepts_witness :
  Float64._input_value_validation
    [Float64.NaN; Float64.Finite 1] [Float64.Finite (1 # 2)]
    [Float64.Finite 0; Float64.PosInf] [Float64.NaN] [Float64.Finite (3 # 4)]
  = OK tt.
Proof.
  destruct (input_value_validation_accepts
              [Float64.NaN; Float64.Finite 1] [Float64.Finite (1 # 2)]
              [Float64.Finite 0; Float64.PosInf] [Float64.NaN] [Float64.Finite (3 # 4)])
    as [[_ H] _].
  apply H.
  repeat (first [exact I | apply Forall_nil | apply Forall_cons | apply conj
                | (cbn [Float64.in_unit_interval_or_nan Float64.not_negative_or_nan];
                   unfold Qle; cbn; lia)]).
Defined.

(** ** The generated table *)

Lemma range_index_bounds n ds r :
  In r (range_index n ds) -> (n <= label r < n + Z.of_nat (length ds))%Z.
Proof.
  revert n. induction ds as [|d ds IH]; intros n; cbn [range_index]; [intros []|].
  intros [<-|H]; cbn [label length]; [lia|]. apply IH in H. lia.
Qed.

Lemma product6_length (l1 l2 l3 l4 l5 l6 : list Q) :
  length (product6 l1 l2 l3 l4 l5 l6)
  = (length l1 * (length l2 * (length l3 * (length l4 * (length l5 * length l6)))))%nat.
Proof.
  unfold product6.
  repeat (apply flat_map_constant_length; intros ? _). apply length_map.
Qed.

Lemma product6_ratio self :
  map (fun '(ra_over_rb, da, pa, rb, db, pb) =>
         {| RA := rb * ra_over_rb; DA := da; PA := pa; RB := rb; DB := db; PB := pb |})
      (product6 (_RA_over_RB self) (_DA self) (_PA self) (_RB self) (_DB self) (_PB self))
  = ratio_product self.
Proof.
  unfold ratio_product, product6.
  rewrite map_flat_map, map_list_prod. apply flat_map_ext. intros a.
  rewrite map_flat_map, map_list_prod. apply flat_map_ext. intros b.
  rewrite map_flat_map, map_list_prod. apply flat_map_ext. intros c.
  rewrite map_flat_map, map_list_prod. apply flat_map_ext. intros d.
  rewrite map_flat_map, map_list_prod. apply flat_map_ext. intros e.
  now rewrite map_map.
Qed.

(** A row of a range index sits at the position its label names. *)
Lemma range_index_position n ds r :
  In r (range_index n ds) ->
  exists i, label r = (n + Z.of_nat i)%Z /\ nth_error ds i = Some (design_of r).
Proof.
  revert n. induction ds as [|d ds IH]; intros n; cbn [range_index]; [intros []|].
  intros [<-|H].
  - exists 0%nat. cbn. split; [lia|reflexivity].
  - destruct (IH _ H) as (i & Hl & Hi). exists (S i). split; [lia|exact Hi].
Qed.

(** The frame built before the filters is the range index over the
    combinations. *)
Lemma initial_designs_combinations self D :
  initial_designs self = OK D -> D = range_index 0 (all_combinations self).
Proof.
  unfold initial_designs, all_combinations.
  destruct (py_not (_RA_over_RB self)); [|destruct (py_not (_RA self))];
    intros [= <-]; [now rewrite product6_cartesian|now rewrite product6_ratio].
Qed.

(** The frame built before the filters: a range index over the combinations. *)
Lemma initial_designs_range self D :
  initial_designs self = OK D ->
  exists ds, D = range_index 0 ds /\ length ds = combinations self.
Proof.
  unfold initial_designs, combinations.
  destruct (py_not (_RA_over_RB self)); [|destruct (py_not (_RA self))];
    intros [= <-]; eexists; (split; [reflexivity|]);
    now rewrite length_map, product6_length.
Qed.

(** The two label drops of the generator amount to one filter. *)
Lemma generate_filters self assume self' :
  generate_all_possible_designs self assume = OK self' ->
  exists D,
    initial_designs self = OK D /\
    self' = set_all_possible_designs self
              (filter (fun r => feasible assume (design_of r)) D).
Proof.
  unfold generate_all_possible_designs.
  destruct (initial_designs self) as [D|e] eqn:E; cbn [rbind]; [|discriminate].
  intros [= <-]. exists D. split; [reflexivity|]. f_equal.
  destruct (initial_designs_range _ E) as (ds & -> & _).
  pose proof (range_index_NoDup 0 ds) as Hnd.
  rewrite (@drop_labels_where (fun d => Qgtb (DA d) (DB d)) _ Hnd).
  destruct assume.
  - rewrite drop_labels_where by now apply NoDup_map_filter.
    rewrite filter_filter. apply filter_ext. intros r. reflexivity.
  - apply filter_ext. intros r. unfold feasible. cbn. now rewrite andb_true_r.
Qed.

Lemma feasible_le assume d :
  feasible assume d = true -> DA d <= DB d /\ (assume = true -> RA d <= RB d).
Proof.
  intros H. apply feasible_iff in H as [H1 H2]. split.
  - now apply Qnot_lt_le.
  - intros Ha. now apply Qnot_lt_le, H2.
Qed.

(** X2. Whatever the value lists, a table that
    [generate_all_possible_designs] produces has pairwise distinct index
    labels, and the label of a row is the position of its design in the
    product of the value lists; no row has [DA > DB] and, when discounting
    is assumed, no row has [RB < RA].  The other attributes of the
    generator are not touched. *)
Theorem generated_table_invariants
    (self self' : DARCDesignGenerator) (assume : bool) :
  generate_all_possible_designs self assume = OK self' ->
  NoDup (map label (all_possible_designs self')) /\
  (forall r, In r (all_possible_designs self') ->
     (0 <= label r)%Z /\
     nth_error (all_combinations self) (Z.to_nat (label r)) = Some (design_of r) /\
     ~ DB (design_of r) < DA (design_of r) /\
     (assume = true -> ~ RB (design_of r) < RA (design_of r))) /\
  set_all_possible_designs self' (all_possible_designs self) = self.
Proof.
  intros H. destruct (generate_filters _ _ H) as (D & HD & ->).
  pose proof (initial_designs_combinations _ HD) as ->.
  cbn [all_possible_designs set_all_possible_designs]. split; [|split].
  - apply NoDup_map_filter, range_index_NoDup.
  - intros r Hr. apply filter_In in Hr as [Hr Hf].
    apply range_index_position in Hr as (i & Hl & Hi).
    apply feasible_iff in Hf. rewrite Hl. cbn [Z.add].
    rewrite Nat2Z.id. split; [lia|]. split; [exact Hi|exact Hf].
  - now destruct self.
Qed.

(** Of the four combinations of [absolute_rewards] the rows at the
    positions 0 and 2 are left, and they carry these labels. *)
Lemma generated_table_invariants_witness :
  exists self',
    generate_all_possible_designs absolute_rewards false = OK self' /\
    all_possible_designs self' = table_with_gaps /\
    map label (all_possible_designs self') = [0%Z; 2%Z] /\
    forall r, In r (all_possible_designs self') ->
      nth_error (all_combinations absolute_rewards) (Z.to_nat (label r))
      = Some (design_of r).
Proof.
  eexists. split; [reflexivity|]. split; [reflexivity|]. split; [reflexivity|].
  intros r Hr.
  destruct (@generated_table_invariants absolute_rewards _ false eq_refl)
    as (_ & Hrows & _).
  apply (Hrows r Hr).
Defined.

(** X3. Construction succeeds exactly when the value validation passes and
    [RA] and [RA_over_RB] are not both given.  The generator it returns
    holds the arguments as passed, and its table has no row with [DA > DB]
    and none with [RB < RA]. *)
Theorem init_outcome
    (da db ra rb ra_over_rb pa pb : list Q)
    (dim : option string) (budget : Z) (no_repeats : bool) :
  ((exists g, __init__ da db ra rb ra_over_rb pa pb dim budget no_repeats = OK g) <->
     _input_value_validation pa pb da db ra_over_rb = OK tt /\
     (ra_over_rb = [] \/ ra = [])) /\
  (forall g, __init__ da db ra rb ra_over_rb pa pb dim budget no_repeats = OK g ->
     _DA g = da /\ _DB g = db /\ _RA g = ra /\ _RB g = rb /\
     _RA_over_RB g = ra_over_rb /\ _PA g = pa /\ _PB g = pb /\
     random_choice_dimension g = dim /\ max_trials g = budget /\
     NO_REPEATS g = no_repeats /\
     forall r, In r (all_possible_designs g) ->
       ~ DB (design_of r) < DA (design_of r) /\
       ~ RB (design_of r) < RA (design_of r)).
Proof.
  unfold __init__.
  assert (Htype : _input_type_validation ra da pa rb db pb ra_over_rb = OK tt).
  { unfold _input_type_validation, is_False.
    destruct (py_not ra), (py_not ra_over_rb); reflexivity. }
  rewrite Htype. cbn [rbind].
  destruct (_input_value_validation pa pb da db ra_over_rb) as [[]|e]; cbn [rbind].
  - split.
    + unfold generate_all_possible_designs, initial_designs. cbn [_RA_over_RB _RA].
      destruct ra_over_rb as [|x xs]; [|destruct ra as [|y ys]]; cbn [py_not rbind].
      * split; [intros _; auto|intros _; eauto].
      * split; [intros _; auto|intros _; eauto].
      * split; [intros [g Hg]; discriminate|intros [_ [H|H]]; discriminate].
    + intros g Hg. destruct (generate_filters _ _ Hg) as (D & _ & ->).
      cbn [_DA _DB _RA _RB _RA_over_RB _PA _PB random_choice_dimension max_trials
           NO_REPEATS all_possible_designs set_all_possible_designs].
      repeat (split; [reflexivity|]).
      intros r Hr. apply filter_In in Hr as [_ Hf].
      apply feasible_iff in Hf as [H1 H2]. split; [exact H1|now apply H2].
  - split; [split; [intros [g Hg]; discriminate|intros [H _]; discriminate]|].
    intros g Hg. discriminate.
Qed.

(** The ratio parameterisation with two ratios and two rewards of B. *)
Lemma init_outcome_witness :
  exists g,
    __init__ [0] [30] [] [100; 500] [1 # 4; 3 # 4] [1] [1] None 20 false = OK g /\
    _RA_over_RB g = [1 # 4; 3 # 4] /\
    length (all_possible_designs g) = 4%nat /\
    forall r, In r (all_possible_designs g) ->
      ~ RB (design_of r) < RA (design_of r).
Proof.
  destruct (init_outcome [0] [30] [] [100; 500] [1 # 4; 3 # 4] [1] [1] None 20 false)
    as [[_ Hex] Hattr].
  destruct Hex as [g Hg]; [split; [reflexivity|now right]|].
  exists g. split; [exact Hg|].
  destruct (Hattr g Hg) as (_ & _ & _ & _ & H5 & _ & _ & _ & _ & _ & Htable).
  split; [exact H5|]. split.
  - vm_compute in Hg. injection Hg as <-. reflexivity.
  - intros r Hr. apply (Htable r Hr).
Defined.

(** ** The ratio parameterisation *)

Lemma ratio_product_In self d :
  In d (ratio_product self) <->
  (exists ratio, In ratio (_RA_over_RB self) /\ RA d = RB d * ratio) /\
  In (DA d) (_DA self) /\ In (PA d) (_PA self) /\
  In (RB d) (_RB self) /\ In (DB d) (_DB self) /\ In (PB d) (_PB self).
Proof.
  unfold ratio_product. rewrite in_map_iff. split.
  - intros ([ratio [da [pa [rb [db pb]]]]] & <- & Hin).
    repeat (apply in_prod_iff in Hin as [? Hin]). cbn. eauto 10.
  - intros ((ratio & Hr & HRA) & H2 & H3 & H4 & H5 & H6).
    exists (ratio, (DA d, (PA d, (RB d, (DB d, PB d))))).
    split; [destruct d; cbn in *; now subst|].
    repeat (apply in_prod_iff; split; auto).
Qed.

Lemma initial_designs_ratio self :
  _RA_over_RB self <> [] -> _RA self = [] ->
  initial_designs self = OK (range_index 0 (ratio_product self)).
Proof.
  intros Hratio Hra. unfold initial_designs. rewrite Hra.
  destruct (_RA_over_RB self) eqn:E; [contradiction|]. cbn [py_not].
  rewrite <- E, <- product6_ratio. reflexivity.
Qed.

Lemma drop_nothing D : drop [] D = D.
Proof.
  unfold drop. induction D as [|r D IH]; cbn [filter existsb negb]; [reflexivity|].
  f_equal. exact IH.
Qed.

(** X4. With the ratio parameterisation ([RA_over_RB] given, [RA] empty)
    the table is, in order, the product of the lists
    [(RA_over_RB, DA, PA, RB, DB, PB)] with the reward of A computed as
    [RB * RA_over_RB], without the rows where [DA > DB] and, under the
    discounting assumption, without those where [RB < RA]. *)
Theorem generate_ratio_table (self : DARCDesignGenerator) (assume : bool) :
  _RA_over_RB self <> [] ->
  _RA self = [] ->
  exists self',
    generate_all_possible_designs self assume = OK self' /\
    map design_of (all_possible_designs self')
      = filter (feasible assume) (ratio_product self) /\
    (forall d, In d (map design_of (all_possible_designs self')) <->
       (exists ratio, In ratio (_RA_over_RB self) /\ RA d = RB d * ratio) /\
       In (DA d) (_DA self) /\ In (PA d) (_PA self) /\
       In (RB d) (_RB self) /\ In (DB d) (_DB self) /\ In (PB d) (_PB self) /\
       ~ DB d < DA d /\ (assume = true -> ~ RB d < RA d)).
Proof.
  intros Hratio Hra.
  pose proof (initial_designs_ratio self Hratio Hra) as Hinit.
  destruct (generate_all_possible_designs self assume) as [self'|e] eqn:G.
  - destruct (generate_filters _ _ G) as (D & HD & ->).
    rewrite Hinit in HD. injection HD as <-. eexists. split; [reflexivity|].
    cbn [all_possible_designs set_all_possible_designs].
    rewrite (filter_design_of (feasible assume)), range_index_designs.
    split; [reflexivity|].
    intros d. rewrite filter_In, ratio_product_In, feasible_iff. tauto.
  - unfold generate_all_possible_designs in G. rewrite Hinit in G. discriminate.
Qed.

Lemma generate_ratio_table_witness :
  exists self',
    generate_all_possible_designs reward_ratios true = OK self' /\
    map RA (map design_of (all_possible_designs self'))
      = [100 * (1 # 4); 500 * (1 # 4); 100 * (3 # 4); 500 * (3 # 4)].
Proof.
  destruct (generate_ratio_table reward_ratios true) as (self' & H1 & H2 & _);
    [discriminate|reflexivity|].
  exists self'. split; [exact H1|]. rewrite H2. reflexivity.
Defined.

Lemma Qmult_ratio_le rb ratio : 0 <= rb -> ratio <= 1 -> rb * ratio <= rb.
Proof.
  intros Hrb Hr. rewrite <- (Qmult_1_r rb) at 2.
  rewrite (Qmult_comm rb ratio), (Qmult_comm rb 1).
  now apply Qmult_le_compat_r.
Qed.

(** X5. In the ratio parameterisation with ratios of at most 1 and rewards
    of B that are not negative, the reward of A never exceeds the reward of
    B, so assuming discounting removes no row: the table is the same with
    and without [assume_discounting]. *)
Theorem ratio_table_ignores_assume_discounting (self : DARCDesignGenerator) :
  _RA self = [] ->
  Forall (fun ratio => ratio <= 1) (_RA_over_RB self) ->
  Forall (Qle 0) (_RB self) ->
  generate_all_possible_designs self true = generate_all_possible_designs self false.
Proof.
  intros Hra Hratio Hrb.
  destruct (_RA_over_RB self) as [|x xs] eqn:E.
  - unfold generate_all_possible_designs, initial_designs.
    rewrite E, Hra. reflexivity.
  - assert (Hne : _RA_over_RB self <> []) by (rewrite E; discriminate).
    unfold generate_all_possible_designs.
    rewrite (initial_designs_ratio self Hne Hra). cbn [rbind]. do 2 f_equal.
    set (D1 := drop _ (range_index 0 (ratio_product self))).
    replace (labels_where (fun d => Qltb (RB d) (RA d)) D1) with (@nil Z);
      [apply drop_nothing|].
    unfold labels_where. rewrite filter_nothing; [reflexivity|].
    intros r Hr. apply Qltb_false.
    assert (Hin : In (design_of r) (ratio_product self)).
    { apply filter_In in Hr as [Hr _].
      rewrite <- (range_index_designs 0 (ratio_product self)). now apply in_map. }
    apply ratio_product_In in Hin as ((ratio & Hr1 & HRA) & _ & _ & Hrb1 & _).
    rewrite Forall_forall in Hratio, Hrb. rewrite E in Hr1. rewrite HRA.
    exact (Qmult_ratio_le (Hrb _ Hrb1) (Hratio _ Hr1)).
Qed.

Lemma ratio_table_ignores_assume_discounting_witness :
  generate_all_possible_designs reward_ratios true
  = generate_all_possible_designs reward_ratios false.
Proof.
  apply ratio_table_ignores_assume_discounting.
  - reflexivity.
  - repeat constructor; discriminate.
  - repeat constructor; discriminate.
Defined.

(** ** Holding one design dimension constant *)






(** ** The predictability filter on two candidates or more *)

(** Dropping the labels of the rows under a mask that depends on the label
    only removes exactly the rows under the mask. *)
Lemma a_drop_labels_where (mask : arow -> bool) (a : list arow) :
  (forall r r', In r a -> In r' a -> a_label r = a_label r' -> mask r = mask r') ->
  a_drop (a_labels_where mask a) a = filter (fun r => negb (mask r)) a.
Proof.
  intros Hmask. unfold a_drop, a_labels_where. apply filter_ext_in. intros r Hr.
  f_equal. destruct (mask r) eqn:Hm.
  - apply existsb_exists. exists (a_label r). split; [|apply Z.eqb_refl].
    apply in_map, filter_In. auto.
  - destruct (existsb _ _) eqn:E; [|reflexivity].
    apply existsb_exists in E as (l & Hl & Heq). apply Z.eqb_eq in Heq. subst l.
    apply in_map_iff in Hl as (r' & Hlbl & Hr'). apply filter_In in Hr' as [Hr' Hm'].
    rewrite (Hmask r r' Hr Hr' (eq_sym Hlbl)) in Hm. congruence.
Qed.

Lemma annotate_rows t values a :
  In a (annotate t values) <->
  exists r, In r t /\ a = annotated r (aligned values (label r)).
Proof.
  unfold annotate, annotated. rewrite in_map_iff. split.
  - intros (r & <- & Hr). eauto.
  - intros (r & Hr & ->). eauto.
Qed.

(** With two rows or more the filter keeps the rows that are not marked
    highly predictable, and only those. *)
Lemma remove_highly_predictable_designs_filter t m :
  (2 <= length t)%nat ->
  remove_highly_predictable_designs t m
  = filter (fun a => negb (highly_predictable a))
      (annotate t (predictive_y_at_point_estimate m t)).
Proof.
  intros Hlen. rewrite fallback_needs_fewer_than_two by exact Hlen. cbv zeta.
  set (a := annotate t _).
  assert (Hp : forall r, In r a ->
            p_chose_B r = aligned (predictive_y_at_point_estimate m t) (a_label r) /\
            highly_predictable r = is_highly_predictable (p_chose_B r)).
  { intros r Hr. apply annotate_rows in Hr as (r0 & _ & ->). split; reflexivity. }
  rewrite (@a_drop_labels_where (p_below threshold) a).
  2:{ intros r r' Hr Hr' Hl. unfold p_below.
      now rewrite (proj1 (Hp r Hr)), (proj1 (Hp r' Hr')), Hl. }
  rewrite a_drop_labels_where.
  2:{ intros r r' Hr Hr' Hl. apply filter_In in Hr as [Hr _], Hr' as [Hr' _].
      unfold p_above. now rewrite (proj1 (Hp r Hr)), (proj1 (Hp r' Hr')), Hl. }
  rewrite filter_filter. apply filter_ext_in. intros r Hr.
  rewrite (proj2 (Hp r Hr)). unfold p_below, p_above, is_highly_predictable.
  destruct (p_chose_B r); [|reflexivity]. now rewrite negb_orb.
Qed.

Lemma aligned_range values i :
  aligned values (Z.of_nat i) = nth_error values i.
Proof.
  unfold aligned. destruct (Z.of_nat i <? 0)%Z eqn:E; [apply Z.ltb_lt in E; lia|].
  now rewrite Nat2Z.id.
Qed.

Lemma range_index_nth n ds i d :
  nth_error ds i = Some d ->
  In {| label := n + Z.of_nat i; design_of := d |} (range_index n ds).
Proof.
  revert n i. induction ds as [|x ds IH]; intros n [|i] H; cbn in *; try discriminate.
  - injection H as ->. left. f_equal. lia.
  - right. replace (n + Z.pos (Pos.of_succ_nat i))%Z with ((n + 1) + Z.of_nat i)%Z by lia.
    now apply IH.
Qed.

Lemma is_highly_predictable_false p :
  is_highly_predictable (Some p) = false <-> threshold <= p /\ p <= 1 - threshold.
Proof.
  unfold is_highly_predictable, Qgtb. rewrite orb_false_iff, !Qltb_false. tauto.
Qed.

(** X7. On a table that still has its range index (labels are positions)
    and holds two designs or more, the probability predicted for position
    [i] is the one assigned to row [i], and the row is kept exactly when
    that probability lies between 0.01 and 0.99, both included; a design
    predicted at 0.5 is never removed. *)
Theorem predictability_filter_on_range_index
    (ds : list design) (m : model) (i : nat) (d : design) (p : Q) :
  (2 <= length ds)%nat ->
  nth_error ds i = Some d ->
  nth_error (predictive_y_at_point_estimate m (range_index 0 ds)) i = Some p ->
  (In (annotated {| label := Z.of_nat i; design_of := d |} (Some p))
      (remove_highly_predictable_designs (range_index 0 ds) m)
   <-> threshold <= p /\ p <= 1 - threshold) /\
  (p == 1 # 2 ->
   In (annotated {| label := Z.of_nat i; design_of := d |} (Some p))
      (remove_highly_predictable_designs (range_index 0 ds) m)).
Proof.
  intros Hlen Hd Hp.
  assert (Hlen' : (2 <= length (range_index 0 ds))%nat).
  { rewrite <- (length_map design_of), range_index_designs. exact Hlen. }
  rewrite remove_highly_predictable_designs_filter by exact Hlen'.
  assert (Hin : In (annotated {| label := Z.of_nat i; design_of := d |} (Some p))
                  (annotate (range_index 0 ds)
                     (predictive_y_at_point_estimate m (range_index 0 ds)))).
  { apply annotate_rows. exists {| label := Z.of_nat i; design_of := d |}.
    split; [apply (range_index_nth 0 ds i Hd)|].
    cbn [label]. now rewrite aligned_range, Hp. }
  assert (Hiff : In (annotated {| label := Z.of_nat i; design_of := d |} (Some p))
                   (filter (fun a => negb (highly_predictable a))
                      (annotate (range_index 0 ds)
                         (predictive_y_at_point_estimate m (range_index 0 ds))))
                 <-> threshold <= p /\ p <= 1 - threshold).
  { rewrite filter_In. cbn [highly_predictable annotated].
    rewrite negb_true_iff, is_highly_predictable_false. tauto. }
  split; [exact Hiff|]. intros Hhalf. apply Hiff.
  unfold threshold. rewrite Hhalf. split; discriminate.
Qed.

Lemma predictability_filter_on_range_index_witness :
  In (annotated {| label := 0%Z; design_of := design_50_now |} (Some (1 # 2)))
     (remove_highly_predictable_designs two_designs half_then_zero).
Proof.
  apply (proj2 (@predictability_filter_on_range_index
                  [design_50_now; design_80_now] half_then_zero 0 design_50_now (1 # 2)
                  ltac:(cbn; lia) eq_refl eq_refl)).
  reflexivity.
Defined.

(** X8. The probabilities are assigned by index label, not by position: on
    a table of two rows or more, a row whose label is not a position of
    the probability array receives NaN and is returned, whatever the model
    predicts for it. *)
Theorem predictability_filter_keeps_unaligned_rows
    (t : list row) (m : model) (r : row) :
  (2 <= length t)%nat ->
  In r t ->
  (label r < 0 \/
   Z.of_nat (length (predictive_y_at_point_estimate m t)) <= label r)%Z ->
  In (annotated r None) (remove_highly_predictable_designs t m).
Proof.
  intros Hlen Hr Hlabel. rewrite remove_highly_predictable_designs_filter by exact Hlen.
  apply filter_In. split; [|reflexivity].
  apply annotate_rows. exists r. split; [exact Hr|]. f_equal.
  unfold aligned. destruct (label r <? 0)%Z eqn:E; [reflexivity|].
  apply Z.ltb_ge in E. symmetry. apply nth_error_None. lia.
Qed.

Lemma predictability_filter_keeps_unaligned_rows_witness :
  map (fun a => (a_label a, RA (a_design a), p_chose_B a))
      (remove_highly_predictable_designs table_with_gaps certain_model)
    = [(2%Z, 150, None)] /\
  In (annotated {| label := 2%Z;
                   design_of := {| RA := 150; DA := 0; PA := 1;
                                   RB := 100; DB := 30; PB := 1 |} |} None)
     (remove_highly_predictable_designs table_with_gaps certain_model).
Proof.
  split; [reflexivity|].
  apply predictability_filter_keeps_unaligned_rows.
  - cbn; lia.
  - right; left; reflexivity.
  - right. cbn. lia.
Defined.

(** X9. On a table of at most one row the filter takes its fallback and
    returns the table as it is: a single candidate is kept even when it is
    highly predictable. *)
Theorem predictability_filter_keeps_single_candidate (t : list row) (m : model) :
  (length t <= 1)%nat ->
  map a_design (remove_highly_predictable_designs t m) = map design_of t /\
  map a_label (remove_highly_predictable_designs t m) = map label t.
Proof.
  intros Hlen. destruct t as [|r [|r' t]]; [split; reflexivity| |cbn in Hlen; lia].
  unfold remove_highly_predictable_designs, annotate, size. cbn [map length filter].
  destruct (is_highly_predictable _); split; reflexivity.
Qed.

Lemma predictability_filter_keeps_single_candidate_witness :
  map a_design
      (remove_highly_predictable_designs
         [{| label := 0%Z; design_of := design_50_now |}] certain_model)
    = [design_50_now].
Proof.
  apply (proj1 (@predictability_filter_keeps_single_candidate
                  [{| label := 0%Z; design_of := design_50_now |}] certain_model
                  (le_n 1))).
Defined.

(** ** Removing trials: what is left *)

Lemma occurrences_filter_le d (P : row -> bool) t :
  (occurrences d (filter P t) <= occurrences d t)%nat.
Proof.
  unfold occurrences. induction t as [|r t IH]; cbn; [lia|].
  destruct (P r); cbn; destruct (design_eqb d (design_of r)); cbn; lia.
Qed.

(** X10. Whatever the two tables are, no design occurs twice in the result
    of [remove_trials_already_run] (a design that is repeated in the design
    set itself is removed altogether), and removing nothing from the result
    gives the result back. *)
Theorem remove_trials_already_run_no_duplicates (design_set exclude_these : list row) :
  (forall r, In r (remove_trials_already_run design_set exclude_these) ->
     occurrences (design_of r)
       (remove_trials_already_run design_set exclude_these) = 1%nat) /\
  (forall r, In r design_set ->
     (2 <= occurrences (design_of r) design_set)%nat ->
     ~ In r (remove_trials_already_run design_set exclude_these)) /\
  remove_trials_already_run
    (remove_trials_already_run design_set exclude_these) []
  = remove_trials_already_run design_set exclude_these.
Proof.
  assert (Honce : forall r, In r (remove_trials_already_run design_set exclude_these) ->
            occurrences (design_of r)
              (remove_trials_already_run design_set exclude_these) = 1%nat).
  { intros r Hr. pose proof (occurrences_In _ _ Hr) as Hge.
    unfold remove_trials_already_run, drop_duplicates_keep_False in *.
    apply filter_In in Hr as [_ Hocc]. apply Nat.eqb_eq in Hocc.
    pose proof (occurrences_filter_le (design_of r)
                  (fun r0 => Nat.eqb (occurrences (design_of r0)
                                        (design_set ++ exclude_these)) 1)
                  (design_set ++ exclude_these)). lia. }
  split; [exact Honce|]. split.
  - intros r Hr Htwice Hin.
    unfold remove_trials_already_run, drop_duplicates_keep_False in Hin.
    apply filter_In in Hin as [_ Hocc]. apply Nat.eqb_eq in Hocc.
    rewrite occurrences_app in Hocc. lia.
  - set (out := remove_trials_already_run design_set exclude_these) in *.
    unfold remove_trials_already_run at 1, drop_duplicates_keep_False.
    rewrite app_nil_r.
    rewrite <- (filter_ext_in (fun _ => true)).
    + clear. induction out as [|r out IH]; cbn; [reflexivity|]. now rewrite IH.
    + intros r Hr. symmetry. apply Nat.eqb_eq. now apply Honce.
Qed.

(** ** What the filter pipeline returns *)

Lemma remove_trials_already_run_incl ds ex :
  incl (remove_trials_already_run ds ex) (ds ++ ex).
Proof.
  intros r Hr. unfold remove_trials_already_run, drop_duplicates_keep_False in Hr.
  now apply filter_In in Hr.
Qed.

(** The table that leaves the first stage of [refine_design_space]. *)
Lemma refine_design_space_stages self m draw allowable :
  refine_design_space self m draw = OK allowable ->
  exists kept chosen,
    kept = (if NO_REPEATS self && (trial self >? 1)%Z
            then remove_trials_already_run (all_possible_designs self)
                   (drop_R (data self))
            else all_possible_designs self) /\
    match random_choice_dimension self with
    | Some dim => choose_one_along_design_dimension draw kept dim = OK chosen
    | None => chosen = kept
    end /\
    allowable = remove_highly_predictable_designs chosen m.
Proof.
  unfold refine_design_space.
  set (kept := if NO_REPEATS self && (trial self >? 1)%Z
               then remove_trials_already_run (all_possible_designs self)
                      (drop_R (data self))
               else all_possible_designs self).
  destruct (random_choice_dimension self) as [dim|].
  - destruct (choose_one_along_design_dimension draw kept dim) as [chosen|e] eqn:E;
      cbn [rbind]; [|discriminate].
    intros [= <-]. exists kept, chosen. auto.
  - cbn [rbind]. intros [= <-]. exists kept, kept. auto.
Qed.

(** A design set that holds [design_50_now] twice, and a history with
    [design_80_now]: only [design_90_now] is left, once; the repeated
    design is gone although it was never run. *)
Lemma remove_trials_already_run_no_duplicates_witness :
  remove_trials_already_run repeated_designs history_80
    = [{| label := 3%Z; design_of := design_90_now |}] /\
  occurrences design_90_now (remove_trials_already_run repeated_designs history_80)
    = 1%nat /\
  ~ In {| label := 0%Z; design_of := design_50_now |}
       (remove_trials_already_run repeated_designs history_80) /\
  remove_trials_already_run
    (remove_trials_already_run repeated_designs history_80) []
  = remove_trials_already_run repeated_designs history_80.
Proof.
  destruct (remove_trials_already_run_no_duplicates repeated_designs history_80)
    as (Honce & Hrepeated & Hagain).
  split; [reflexivity|]. split; [|split].
  - apply (Honce {| label := 3%Z; design_of := design_90_now |}).
    left. reflexivity.
  - apply (Hrepeated {| label := 0%Z; design_of := design_50_now |}).
    + left. reflexivity.
    + vm_compute. lia.
  - exact Hagain.
Defined.

(** X11. [refine_design_space] invents nothing: every allowable row is,
    with its label and its design, a row of the design table or of the
    trial history, and of the design table whenever the exclusion of past
    trials is not run ([NO_REPEATS] off, or trial index at most 1). *)
Theorem refine_design_space_returns_known_rows
    (self : DARCDesignGenerator) (m : model) (draw : nat) (allowable : list arow) :
  refine_design_space self m draw = OK allowable ->
  forall a, In a allowable ->
    exists r,
      In r (all_possible_designs self ++ drop_R (data self)) /\
      a_design a = design_of r /\ a_label a = label r /\
      (NO_REPEATS self = false \/ (trial self <= 1)%Z ->
       In r (all_possible_designs self)).
Proof.
  intros H a Ha.
  destruct (refine_design_space_stages _ _ _ H) as (kept & chosen & Hkept & Hchosen & ->).
  apply remove_highly_predictable_designs_from in Ha as (r & Hr & Hd & Hl).
  assert (Hrk : In r kept).
  { destruct (random_choice_dimension self) as [dim|].
    - eapply choose_one_along_design_dimension_incl; eauto.
    - now subst chosen. }
  exists r. repeat split; auto.
  - subst kept. destruct (NO_REPEATS self && (trial self >? 1)%Z).
    + now apply remove_trials_already_run_incl.
    + apply in_or_app. now left.
  - intros Hoff. subst kept.
    replace (NO_REPEATS self && (trial self >? 1)%Z) with false in Hrk; [exact Hrk|].
    symmetry. destruct Hoff as [->|Hle]; [reflexivity|].
    apply andb_false_iff. right. rewrite Z.gtb_ltb. apply Z.ltb_ge. exact Hle.
Qed.

Lemma refine_design_space_returns_known_rows_witness :
  exists r,
    In r (all_possible_designs third_trial ++ drop_R (data third_trial)) /\
    design_of r = design_90_now /\ label r = 2%Z.
Proof.
  assert (H : forall a,
            In a (remove_highly_predictable_designs
                    [{| label := 2%Z; design_of := design_90_now |}] undecided_model) ->
            exists r,
              In r (all_possible_designs third_trial ++ drop_R (data third_trial)) /\
              a_design a = design_of r /\ a_label a = label r /\
              (NO_REPEATS third_trial = false \/ (trial third_trial <= 1)%Z ->
               In r (all_possible_designs third_trial))).
  { apply (@refine_design_space_returns_known_rows third_trial undecided_model 0).
    vm_compute. reflexivity. }
  destruct (H _ (or_introl eq_refl)) as (r & Hr & Hd & Hl & _).
  exists r. split; [exact Hr|]. split; [symmetry; exact Hd|symmetry; exact Hl].
Defined.

(** X12. When a design dimension is held constant, all allowable rows
    carry the same value on it. *)
Theorem refine_design_space_holds_dimension
    (self : DARCDesignGenerator) (m : model) (draw : nat) (allowable : list arow)
    (dim : string) (col : design -> Q) :
  random_choice_dimension self = Some dim ->
  column dim = Some col ->
  refine_design_space self m draw = OK allowable ->
  forall a a', In a allowable -> In a' allowable ->
    col (a_design a) == col (a_design a').
Proof.
  intros Hdim Hcol H a a' Ha Ha'.
  destruct (refine_design_space_stages _ _ _ H) as (kept & chosen & _ & Hchosen & ->).
  rewrite Hdim in Hchosen. unfold choose_one_along_design_dimension in Hchosen.
  rewrite Hcol in Hchosen.
  destruct (random_choice _ _) as [v|e]; cbn [rbind] in Hchosen; [|discriminate].
  injection Hchosen as <-.
  apply remove_highly_predictable_designs_from in Ha as (r & Hr & -> & _).
  apply remove_highly_predictable_designs_from in Ha' as (r' & Hr' & -> & _).
  apply filter_In in Hr as [_ Hr], Hr' as [_ Hr'].
  apply Qeq_bool_iff in Hr, Hr'. now rewrite Hr, Hr'.
Qed.

(** Two rewards of A against two delays of B, the delay held constant: the
    two allowable rows differ in the reward of A and share the delay of B. *)
Lemma refine_design_space_holds_dimension_witness :
  map (fun r => DB (design_of r)) (all_possible_designs hold_delay) = [30; 60; 30; 60] /\
  exists allowable,
    refine_design_space hold_delay undecided_model 0 = OK allowable /\
    map a_design allowable = [design_now_against 50 30; design_now_against 80 30] /\
    forall a a', In a allowable -> In a' allowable ->
      DB (a_design a) == DB (a_design a').
Proof.
  split; [reflexivity|].
  eexists. split; [reflexivity|]. split; [reflexivity|].
  apply (@refine_design_space_holds_dimension hold_delay undecided_model 0 _ "DB" DB);
    reflexivity.
Defined.

(** X13. The stages do not fail soft on an empty table: when a design
    dimension is to be held constant and neither the table nor the history
    has a row, [refine_design_space] raises the [IndexError] of
    [random.choice], and below the trial budget [get_next_design] raises it
    too, before the optimiser is reached. *)
Theorem empty_table_raises_index_error
    (design_optimisation : list arow -> result (list arow * Q))
    (self : DARCDesignGenerator) (m : model) (draw : nat)
    (dim : string) (col : design -> Q) :
  all_possible_designs self = [] ->
  data self = [] ->
  random_choice_dimension self = Some dim ->
  column dim = Some col ->
  refine_design_space self m draw
    = Err (IndexError "Cannot choose from an empty sequence") /\
  ((trial self < max_trials self)%Z ->
   get_next_design design_optimisation self m draw
     = Err (IndexError "Cannot choose from an empty sequence")).
Proof.
  intros Htable Hdata Hdim Hcol.
  assert (Hrefine : refine_design_space self m draw
                    = Err (IndexError "Cannot choose from an empty sequence")).
  { unfold refine_design_space. rewrite Htable, Hdata, Hdim.
    assert (Hkept : (if NO_REPEATS self && (trial self >? 1)%Z
                     then remove_trials_already_run [] (drop_R [])
                     else []) = @nil row) by (destruct (_ && _); reflexivity).
    rewrite Hkept. unfold choose_one_along_design_dimension, random_choice.
    rewrite Hcol. cbn [map unique]. now rewrite nth_error_nil. }
  split; [exact Hrefine|]. intros Hlt. unfold get_next_design.
  destruct (trial self >? max_trials self - 1)%Z eqn:E;
    [apply Z.gtb_lt in E; lia|].
  now rewrite Hrefine.
Qed.

Lemma empty_table_raises_index_error_witness :
  get_next_design first_design empty_with_dimension undecided_model 0
    = Err (IndexError "Cannot choose from an empty sequence").
Proof.
  apply (proj2 (@empty_table_raises_index_error first_design empty_with_dimension
                  undecided_model 0 "DB" DB eq_refl eq_refl eq_refl eq_refl)).
  reflexivity.
Defined.

(** X14. Below the trial budget [get_next_design] never answers [None]: it
    returns a design or raises.  An exception of the filter pipeline or of
    the optimiser is the exception of the call, and an optimiser that
    returns an empty frame makes it raise [IndexError]. *)
Theorem get_next_design_below_budget
    (design_optimisation : list arow -> result (list arow * Q))
    (self : DARCDesignGenerator) (m : model) (draw : nat) :
  (trial self < max_trials self)%Z ->
  get_next_design design_optimisation self m draw <> OK None /\
  (forall e, refine_design_space self m draw = Err e ->
     get_next_design design_optimisation self m draw = Err e) /\
  (forall allowable e,
     refine_design_space self m draw = OK allowable ->
     design_optimisation allowable = Err e ->
     get_next_design design_optimisation self m draw = Err e) /\
  (forall allowable utility,
     refine_design_space self m draw = OK allowable ->
     design_optimisation allowable = OK ([], utility) ->
     exists msg, get_next_design design_optimisation self m draw
                 = Err (IndexError msg)).
Proof.
  intros Hlt. unfold get_next_design.
  destruct (trial self >? max_trials self - 1)%Z eqn:E;
    [apply Z.gtb_lt in E; lia|].
  split; [|split; [|split]].
  - destruct (refine_design_space self m draw) as [A|e]; cbn [rbind]; [|discriminate].
    destruct (design_optimisation A) as [[df u]|e]; cbn [rbind]; [|discriminate].
    destruct (df_to_design_tuple (fst (df, u))); cbn [rbind]; discriminate.
  - intros e ->. reflexivity.
  - intros A e -> Hopt. cbn [rbind]. now rewrite Hopt.
  - intros A u -> Hopt. cbn [rbind]. rewrite Hopt. cbn. eauto.
Qed.

Lemma get_next_design_below_budget_witness :
  get_next_design first_design second_trial undecided_model 0 <> OK None.
Proof.
  apply (@get_next_design_below_budget first_design second_trial undecided_model 0).
  reflexivity.
Defined.

End DesignsMore.

(** * Further properties of [bad/model.py] *)

Module ModelMore.

Import Model ModelVectors.
Import ModelFacts.
Local Open Scope py_scope.

Section WithFloats.

Context {num : Type} {F : FloatOps num}.

(** ** Lists and the store *)

Lemma set_nth_app {A} (pre : list A) x y l :
  set_nth (length pre) x (pre ++ y :: l) = pre ++ x :: l.
Proof. induction pre as [|a pre IH]; cbn; [reflexivity|]. now rewrite IH. Qed.

Lemma nth_zip_with {A B C} (f : A -> B -> C) l m i da db dc :
  i < length l -> i < length m ->
  nth i (zip_with f l m) dc = f (nth i l da) (nth i m db).
Proof.
  revert m i. induction l as [|a l IH]; intros [|b m] [|i] Hl Hm; cbn in *; try lia; auto.
  apply IH; lia.
Qed.

Lemma nth_error_set_nth_other {A} l l' (x : A) h :
  l <> l' -> nth_error (set_nth l x h) l' = nth_error h l'.
Proof.
  revert l l'. induction h as [|y h IH]; intros [|l] [|l'] H; cbn; auto; try lia.
Qed.

Lemma for_each_app {A S} (xs ys : list A) (body : A -> S -> @M num S) acc s :
  for_each (xs ++ ys) body acc s
  = bind (for_each xs body acc) (fun acc' => for_each ys body acc') s.
Proof.
  revert acc s. induction xs as [|x xs IH]; intros acc s; cbn [app for_each].
  - reflexivity.
  - unfold bind. destruct (body x acc s) as [[a|e] s1]; [|reflexivity].
    rewrite IH. reflexivity.
Qed.

(** A loop whose body does not touch the store is a fold. *)
Lemma for_each_pure {A S} (xs : list A) (body : A -> S -> @M num S)
    (step : A -> S -> S) acc s :
  (forall x a s, In x xs -> body x a s = (OK (step x a), s)) ->
  for_each xs body acc s = (OK (fold_left (fun a x => step x a) xs acc), s).
Proof.
  revert acc. induction xs as [|x xs IH]; intros acc H; cbn [for_each fold_left].
  - reflexivity.
  - unfold bind. rewrite H by now left. apply IH. intros; apply H; now right.
Qed.

(** ** The likelihood, entry by entry *)

Section Likelihood.

Variable cls : @ModelClass num.
Variables θ0 data : loc.
Variables fθ fd : @DataFrame num.
Variable R : list (@value num).

Hypothesis predictive_y_shape : forall d, length (predictive_y cls fθ d) = nrows fθ.
Hypothesis R_length : length R = nrows fd.

(** The array after the column of trial [t] is written. *)
Let write (p : list (list num)) (t : nat) : list (list num) :=
  zip_with (fun row x => set_nth t x row) p (likelihood_column cls fθ fd R t).

Lemma likelihood_column_length t :
  t < nrows fd -> length (likelihood_column cls fθ fd R t) = nrows fθ.
Proof using predictive_y_shape R_length.
  intros Ht. unfold likelihood_column, take1.
  destruct (@nth_error_in_range _ (df_index fd) t Ht) as [lbl ->].
  destruct (@nth_error_in_range _ R t ltac:(now rewrite R_length)) as [r ->].
  destruct (is_int r 1); [|rewrite length_map]; apply predictive_y_shape.
Qed.

Lemma log_likelihood_trial_exact t p s r :
  points_to θ0 data fθ fd s -> nth_error R t = Some r ->
  valid_response r = true -> length p = nrows fθ ->
  exists s', log_likelihood_trial cls θ0 data R t p s = (OK (write p t), s') /\
             unchanged s s'.
Proof using predictive_y_shape R_length.
  intros [Hθ Hd] Hr Hvalid Hp.
  assert (Ht : t < nrows fd).
  { rewrite <- R_length. apply nth_error_Some. congruence. }
  pose proof (likelihood_column_length Ht) as Hcol.
  destruct (@nth_error_in_range _ (df_index fd) t Ht) as [lbl Hlbl].
  unfold write, likelihood_column, take1 in *. rewrite Hlbl, Hr in *.
  set (td := {| df_index := [lbl];
                df_columns := map (fun c => (fst c, firstn 1 (skipn t (snd c))))
                                  (df_columns fd) |}) in *.
  set (s1 := {| heap := heap s ++ [td]; self := self s |}).
  exists s1. split; [|split; [reflexivity|now exists [td]]].
  assert (Hθ1 : nth_error (heap s ++ [td]) θ0 = Some fθ).
  { rewrite nth_error_app1; [exact Hθ|]. apply nth_error_Some. congruence. }
  assert (Htd : nth_error (heap s ++ [td]) (length (heap s)) = Some td).
  { rewrite nth_error_app2, Nat.sub_diag by lia. reflexivity. }
  unfold log_likelihood_trial, bind at 1, load. rewrite Hd.
  unfold bind at 1, lift, take1. rewrite Hlbl. fold td.
  unfold bind at 1, alloc. unfold bind at 1. rewrite Hr. fold s1.
  unfold valid_response in Hvalid.
  destruct (is_int r 1); [|destruct (is_int r 0); [|discriminate]];
    unfold bind, load; subst s1; cbn [heap]; rewrite Hθ1; cbn [heap]; rewrite Htd;
    unfold lift, set_column; rewrite Hcol, Hp, Nat.eqb_refl; reflexivity.
Qed.

Lemma write_length p t :
  t < nrows fd -> length p = nrows fθ -> length (write p t) = nrows fθ.
Proof using predictive_y_shape R_length.
  intros Ht Hp. unfold write. rewrite length_zip_with; [exact Hp|].
  now rewrite likelihood_column_length.
Qed.

Lemma log_likelihood_loop_exact ts p s :
  points_to θ0 data fθ fd s -> length p = nrows fθ ->
  (forall t, In t ts -> t < nrows fd) ->
  forallb (valid_at R) ts = true ->
  exists s', for_each ts (log_likelihood_trial cls θ0 data R) p s
             = (OK (fold_left write ts p), s') /\ unchanged s s'.
Proof using predictive_y_shape R_length.
  revert p s. induction ts as [|t ts IH]; intros p s Hs Hp Hts Hvalid;
    cbn [for_each fold_left].
  - exists s. split; [reflexivity|apply unchanged_refl].
  - cbn [forallb] in Hvalid. apply andb_true_iff in Hvalid as [Hv Hvalid].
    assert (Ht : t < nrows fd) by (apply Hts; now left).
    unfold valid_at in Hv.
    destruct (nth_error R t) as [r|] eqn:Hr; [|discriminate].
    destruct (@log_likelihood_trial_exact t p s r Hs Hr Hv Hp) as (s1 & E & U).
    unfold bind at 1. rewrite E.
    assert (Hs1 : points_to θ0 data fθ fd s1)
      by (eapply points_to_unchanged; eauto).
    destruct (IH (write p t) s1 Hs1 (@write_length p t Ht Hp)) as (s2 & E2 & U2).
    + intros; apply Hts; now right.
    + exact Hvalid.
    + exists s2. split; [exact E2|eapply unchanged_trans; eauto].
Qed.

Lemma fold_write_row ts p i :
  i < nrows fθ -> length p = nrows fθ ->
  (forall t, In t ts -> t < nrows fd) ->
  nth i (fold_left write ts p) []
  = fold_left (fun row t => set_nth t (nth i (likelihood_column cls fθ fd R t) fzero) row)
      ts (nth i p []).
Proof using predictive_y_shape R_length.
  revert p. induction ts as [|t ts IH]; intros p Hi Hp Hts; cbn [fold_left].
  - reflexivity.
  - assert (Ht : t < nrows fd) by (apply Hts; now left).
    rewrite IH; [|exact Hi|now apply write_length|intros; apply Hts; now right].
    f_equal. unfold write.
    rewrite (@nth_zip_with _ _ _ _ _ _ i [] fzero []);
      [reflexivity|lia|rewrite likelihood_column_length; lia].
Qed.

End Likelihood.

Lemma fold_set_nth_seq (g : nat -> num) z n pre :
  fold_left (fun row t => set_nth t (g t) row) (seq (length pre) n) (pre ++ repeat z n)
  = pre ++ map g (seq (length pre) n).
Proof.
  revert pre. induction n as [|n IH]; intros pre; cbn [seq fold_left repeat map].
  - reflexivity.
  - rewrite set_nth_app.
    replace (pre ++ g (length pre) :: repeat z n)
      with ((pre ++ [g (length pre)]) ++ repeat z n) by now rewrite <- app_assoc.
    replace (S (length pre)) with (length (pre ++ [g (length pre)]))
      by (rewrite length_app; cbn; lia).
    rewrite IH. now rewrite <- app_assoc.
Qed.

(** X15. On a history of valid responses, and for a [predictive_y] that
    returns one probability per particle, entry [i] of the log likelihood
    is the sum over the trials of the logarithm of the probability that
    particle [i] gives to the recorded response: the predicted probability
    of B where B was chosen, one minus it where A was chosen. *)
Theorem log_likelihood_sums_log_probabilities
    (cls : ModelClass) (s : @state num) (θ0 data : loc) (fθ fd : DataFrame)
    (R : list value) :
  nth_error (heap s) θ0 = Some fθ ->
  nth_error (heap s) data = Some fd ->
  getattr fd "R" = OK R ->
  length R = nrows fd ->
  (forall d, length (predictive_y cls fθ d) = nrows fθ) ->
  forallb valid_response R = true ->
  exists ll,
    fst (log_likelihood cls θ0 data s) = OK ll /\
    length ll = nrows fθ /\
    forall i, i < nrows fθ ->
      nth_error ll i
      = Some (reduce_add
                (map (fun t => flog (nth i (likelihood_column cls fθ fd R t) fzero))
                     (seq 0 (nrows fd)))).
Proof.
  intros Hθ Hd HR HRlen Hshape Hvalid.
  assert (Hts : forall t, In t (seq 0 (nrows fd)) -> t < nrows fd)
    by (intros t Ht; apply in_seq in Ht; lia).
  assert (Hz : length (@zeros num F (nrows fθ) (nrows fd)) = nrows fθ)
    by apply repeat_length.
  destruct (@log_likelihood_loop_exact cls θ0 data fθ fd R Hshape HRlen
              (seq 0 (nrows fd)) (zeros (nrows fθ) (nrows fd)) s
              (conj Hθ Hd) Hz Hts) as (s' & E & _).
  { rewrite <- HRlen, forallb_valid_at_seq. exact Hvalid. }
  set (p := fold_left _ (seq 0 (nrows fd)) _) in E.
  assert (Hp : length p = nrows fθ).
  { rewrite (for_each_length _ _ _ _ _ _ _ E). exact Hz. }
  exists (sum_axis1 (map (map flog) p)). split; [|split].
  - unfold log_likelihood, bind, load, lift. now rewrite Hd, Hθ, HR, E.
  - unfold sum_axis1. now rewrite !length_map.
  - intros i Hi. unfold sum_axis1. rewrite !nth_error_map.
    rewrite (@nth_error_nth' _ p i [] ltac:(lia)). cbn [option_map]. do 2 f_equal.
    unfold p.
    rewrite (@fold_write_row cls fθ fd R Hshape HRlen _ _ i Hi Hz Hts).
    unfold zeros. rewrite (nth_error_nth _ _ _ (nth_error_repeat _ Hi)).
    pose proof (fold_set_nth_seq
                  (fun t => nth i (likelihood_column cls fθ fd R t) fzero)
                  fzero (nrows fd) []) as Hfold.
    cbn [app length] in Hfold. rewrite Hfold. now rewrite map_map.
Qed.

(** ** The prior loop, key by key *)

Lemma assoc_In {V} k (v : V) l : assoc k l = Some v -> In (k, v) l.
Proof.
  induction l as [|[k' v'] l IH]; cbn; [discriminate|].
  destruct (String.eqb k k') eqn:E.
  - intros [= ->]. apply String.eqb_eq in E. subst. now left.
  - intros H. right. now apply IH.
Qed.

Lemma assoc_not_In {V} k (l : list (string * V)) :
  ~ In k (map fst l) -> assoc k l = None.
Proof.
  induction l as [|[k' v'] l IH]; cbn; [reflexivity|]. intros H.
  destruct (String.eqb k k') eqn:E.
  - apply String.eqb_eq in E. subst. tauto.
  - apply IH. tauto.
Qed.

(** Writing the log densities of [key] into the frame that already holds
    those of [done]. *)
Lemma assoc_set_log_density cls key done (cols : list (string * list (@value num))) x :
  NoDup (map fst cols) ->
  assoc key cols = Some x ->
  assoc_set key (map (log_density cls key) x)
    (map (fun c => (fst c, if existsb (String.eqb (fst c)) done
                           then map (log_density cls (fst c)) (snd c)
                           else snd c)) cols)
  = map (fun c => (fst c, if existsb (String.eqb (fst c)) (key :: done)
                          then map (log_density cls (fst c)) (snd c)
                          else snd c)) cols.
Proof.
  induction cols as [|[k' v'] cols IH]; cbn [map assoc assoc_set fst snd];
    [discriminate|].
  intros Hnd Hx. inversion Hnd as [|? ? Hn Hd]; subst.
  destruct (String.eqb key k') eqn:E.
  - apply String.eqb_eq in E. subst k'. injection Hx as ->.
    cbn [existsb]. rewrite String.eqb_refl. cbn [orb]. f_equal.
    apply map_ext_in. intros [k v] Hin. cbn [fst snd existsb].
    destruct (String.eqb k key) eqn:E2; [|reflexivity].
    apply String.eqb_eq in E2. subst k. exfalso. apply Hn.
    apply in_map_iff. exists (key, v). auto.
  - cbn [existsb]. rewrite String.eqb_sym, E. cbn [orb]. f_equal. now apply IH.
Qed.

Section PriorLoop.

Variable cls : @ModelClass num.
Variables θ0 log_prior : loc.
Variable fθ : @DataFrame num.

Hypothesis fθ_well_formed : well_formed fθ.
Hypothesis fθ_columns : NoDup (map fst (df_columns fθ)).
Hypothesis distinct : log_prior <> θ0.

Lemma log_prior_pdf_key_run key done u (s : @state num) :
  served cls fθ key = true ->
  nth_error (heap s) θ0 = Some fθ ->
  nth_error (heap s) log_prior = Some (log_prior_frame cls done fθ) ->
  exists s',
    log_prior_pdf_key cls θ0 log_prior key u s = (OK tt, s') /\
    nth_error (heap s') θ0 = Some fθ /\
    nth_error (heap s') log_prior = Some (log_prior_frame cls (key :: done) fθ) /\
    self s' = self s.
Proof using fθ_well_formed fθ_columns distinct.
  intros Hserved Hθ Hlp. unfold served in Hserved.
  destruct (assoc key (prior cls)) as [d|] eqn:Hd; [|discriminate].
  destruct (assoc key (df_columns fθ)) as [x|] eqn:Hx; [|discriminate].
  assert (Hlen : length x = nrows fθ) by (apply (fθ_well_formed _ (assoc_In _ _ Hx))).
  unfold log_prior_pdf_key, bind, lift, load, store, getitem, setitem.
  rewrite Hd, Hθ, Hx, Hlp. cbn [log_prior_frame nrows df_index].
  rewrite length_map. fold (nrows fθ). rewrite Hlen, Nat.eqb_refl.
  eexists. split; [reflexivity|]. cbn [heap self]. split; [|split; [|reflexivity]].
  - rewrite nth_error_set_nth_other by exact distinct. exact Hθ.
  - rewrite nth_error_set_nth by (apply nth_error_Some; congruence).
    f_equal. unfold log_prior_frame. f_equal. cbn [df_columns].
    rewrite <- (assoc_set_log_density cls key done _ fθ_columns Hx). f_equal.
    apply map_ext. intros v. unfold log_density. now rewrite Hd.
Qed.

Lemma log_prior_loop_run names done u (s : @state num) :
  (forall key, In key names -> served cls fθ key = true) ->
  nth_error (heap s) θ0 = Some fθ ->
  nth_error (heap s) log_prior = Some (log_prior_frame cls done fθ) ->
  exists s',
    for_each names (log_prior_pdf_key cls θ0 log_prior) u s = (OK tt, s') /\
    nth_error (heap s') θ0 = Some fθ /\
    nth_error (heap s') log_prior
      = Some (log_prior_frame cls (rev names ++ done) fθ) /\
    self s' = self s.
Proof using fθ_well_formed fθ_columns distinct.
  revert done u s. induction names as [|key names IH]; intros done u s Hserved Hθ Hlp.
  - exists s. destruct u. cbn. auto.
  - destruct (@log_prior_pdf_key_run key done u s (Hserved key (or_introl eq_refl)) Hθ Hlp)
      as (s1 & E & Hθ1 & Hlp1 & Hself1).
    destruct (IH (key :: done) tt s1 (fun k Hk => Hserved k (or_intror Hk)) Hθ1 Hlp1)
      as (s2 & E2 & Hθ2 & Hlp2 & Hself2).
    exists s2. cbn [for_each]. unfold bind. rewrite E.
    split; [exact E2|]. split; [exact Hθ2|]. split; [|congruence].
    rewrite Hlp2. cbn [rev]. now rewrite <- app_assoc.
Qed.

End PriorLoop.

Lemma log_prior_frame_ext cls names names' (fθ : @DataFrame num) :
  (forall key, In key names <-> In key names') ->
  log_prior_frame cls names fθ = log_prior_frame cls names' fθ.
Proof.
  intros H. unfold log_prior_frame. f_equal. apply map_ext. intros c. f_equal.
  replace (existsb (String.eqb (fst c)) names')
    with (existsb (String.eqb (fst c)) names); [reflexivity|].
  apply eq_true_iff_eq. rewrite !existsb_exists.
  split; intros (k & Hk & E); exists k; (split; [now apply H|exact E]).
Qed.

Lemma log_prior_frame_nil cls (fθ : @DataFrame num) : log_prior_frame cls [] fθ = fθ.
Proof.
  unfold log_prior_frame. destruct fθ as [idx cols]. cbn. f_equal.
  induction cols as [|[k v] cols IH]; cbn; [reflexivity|]. now rewrite IH.
Qed.

(** The state in which [log_prior_pdf] enters its loop. *)
Lemma log_prior_pdf_unfold cls θ0 (s : @state num) fθ :
  nth_error (heap s) θ0 = Some fθ ->
  log_prior_pdf cls θ0 s
  = bind (for_each (parameter_names (self s))
            (log_prior_pdf_key cls θ0 (length (heap s))) tt)
         (fun _ => bind (load (length (heap s)))
                     (fun flp => ret (sum_axis1_frame flp)))
         {| heap := heap s ++ [fθ]; self := self s |}.
Proof.
  intros Hθ. unfold log_prior_pdf, bind at 1, load. rewrite Hθ.
  unfold bind at 1, alloc. unfold bind at 1, get_self. reflexivity.
Qed.

(** X16. When every parameter name has a prior and a column in a
    well-formed [θ] with distinct column names, [log_prior_pdf] returns the
    row sums of the frame in which each parameter column holds the log
    density of its values; a column of [θ] that is no parameter enters the
    sums with its raw values. *)
Theorem log_prior_pdf_sums_log_densities
    (cls : ModelClass) (s : @state num) (θ0 : loc) (fθ : DataFrame) :
  nth_error (heap s) θ0 = Some fθ ->
  well_formed fθ ->
  NoDup (map fst (df_columns fθ)) ->
  (forall key, In key (parameter_names (self s)) -> served cls fθ key = true) ->
  fst (log_prior_pdf cls θ0 s)
  = OK (sum_axis1_frame (log_prior_frame cls (parameter_names (self s)) fθ)).
Proof.
  intros Hθ Hwf Hnd Hserved. rewrite (log_prior_pdf_unfold _ _ _ Hθ).
  assert (Hlt : θ0 < length (heap s)) by (apply nth_error_Some; congruence).
  destruct (@log_prior_loop_run cls θ0 (length (heap s)) fθ Hwf Hnd ltac:(lia)
              (parameter_names (self s)) [] tt
              {| heap := heap s ++ [fθ]; self := self s |} Hserved)
    as (s' & E & _ & Hlp & _).
  - cbn [heap]. rewrite nth_error_app1 by exact Hlt. exact Hθ.
  - cbn [heap]. rewrite nth_error_app2, Nat.sub_diag, log_prior_frame_nil by lia.
    reflexivity.
  - unfold bind at 1. rewrite E. unfold bind, load. rewrite Hlp. cbn [fst ret].
    do 2 f_equal. apply log_prior_frame_ext. intros key.
    rewrite app_nil_r. symmetry. apply in_rev.
Qed.

(** X17. [log_prior_pdf] raises [KeyError] with the first parameter name
    that has no prior or no column in [θ]. *)
Theorem log_prior_pdf_missing_key
    (cls : ModelClass) (s : @state num) (θ0 : loc) (fθ : DataFrame)
    (before after : list string) (key : string) :
  nth_error (heap s) θ0 = Some fθ ->
  well_formed fθ ->
  NoDup (map fst (df_columns fθ)) ->
  parameter_names (self s) = before ++ key :: after ->
  (forall k, In k before -> served cls fθ k = true) ->
  served cls fθ key = false ->
  fst (log_prior_pdf cls θ0 s) = Err (KeyError key).
Proof.
  intros Hθ Hwf Hnd Hnames Hbefore Hkey. rewrite (log_prior_pdf_unfold _ _ _ Hθ).
  assert (Hlt : θ0 < length (heap s)) by (apply nth_error_Some; congruence).
  destruct (@log_prior_loop_run cls θ0 (length (heap s)) fθ Hwf Hnd ltac:(lia)
              before [] tt {| heap := heap s ++ [fθ]; self := self s |} Hbefore)
    as (s' & E & Hθ' & Hlp & _).
  - cbn [heap]. rewrite nth_error_app1 by exact Hlt. exact Hθ.
  - cbn [heap]. rewrite nth_error_app2, Nat.sub_diag, log_prior_frame_nil by lia.
    reflexivity.
  - rewrite Hnames. unfold bind at 1. rewrite for_each_app. unfold bind at 1.
    rewrite E. cbn [for_each]. unfold bind at 1.
    assert (Ebody : fst (log_prior_pdf_key cls θ0 (length (heap s)) key tt s')
                    = Err (KeyError key)).
    { unfold served in Hkey.
      unfold log_prior_pdf_key, bind, lift, load, getitem.
      destruct (assoc key (prior cls)); [|reflexivity]. rewrite Hθ'.
      destruct (assoc key (df_columns fθ)); [discriminate|reflexivity]. }
    destruct (log_prior_pdf_key _ _ _ _ _ _) as [[u|e] s2]; cbn [fst] in *;
      [discriminate|]. congruence.
Qed.

(** ** Dicts built key by key *)

Lemma assoc_set_fresh {V} k (v : V) l :
  ~ In k (map fst l) -> assoc_set k v l = l ++ [(k, v)].
Proof.
  induction l as [|[k' v'] l IH]; cbn; [reflexivity|]. intros H.
  destruct (String.eqb k k') eqn:E.
  - apply String.eqb_eq in E. subst. tauto.
  - rewrite IH by tauto. reflexivity.
Qed.

Lemma fold_assoc_set_fresh {V} (g : string -> V) names d :
  NoDup names -> (forall k, In k names -> ~ In k (map fst d)) ->
  fold_left (fun d k => assoc_set k (g k) d) names d
  = d ++ map (fun k => (k, g k)) names.
Proof.
  revert d. induction names as [|k names IH]; intros d Hnd Hfresh; cbn [fold_left map].
  - now rewrite app_nil_r.
  - inversion Hnd as [|? ? Hn Hd]; subst.
    rewrite assoc_set_fresh by (apply Hfresh; now left).
    rewrite IH; [now rewrite <- app_assoc|exact Hd|].
    intros k' Hk'. rewrite map_app, in_app_iff. cbn.
    intros [H|[->|[]]]; [eapply Hfresh; eauto; now right|contradiction].
Qed.

(** [from_dict] of a dict whose values are lists of one cell. *)
Lemma one_row_from_dict (g : string -> num) names :
  from_dict (map (fun k => (k, [VFloat (g k)])) names)
  = OK {| df_index := match names with [] => [] | _ :: _ => [0%Z] end;
          df_columns := map (fun k => (k, [VFloat (g k)])) names |}.
Proof.
  destruct names as [|k names]; [reflexivity|].
  unfold from_dict. cbn [map length snd].
  replace (forallb _ _) with true; [reflexivity|].
  symmetry. apply forallb_forall. intros kc Hkc.
  change ((k, [VFloat (g k)]) :: map (fun k0 => (k0, [VFloat (g k0)])) names)
    with (map (fun k0 => (k0, [VFloat (g k0)])) (k :: names)) in Hkc.
  apply in_map_iff in Hkc as (k' & <- & _). reflexivity.
Qed.

Lemma assoc_key {V} k (l : list (string * V)) :
  In k (map fst l) -> assoc k l <> None.
Proof.
  induction l as [|[k' v'] l IH]; cbn; [tauto|].
  destruct (String.eqb k k') eqn:E; [discriminate|].
  intros [->|H]; [rewrite String.eqb_refl in E; discriminate|now apply IH].
Qed.

Lemma assoc_map_snd {V W} (g : string * V -> W) k (l : list (string * V)) :
  assoc k (map (fun c => (fst c, g c)) l)
  = match assoc k l with
    | Some v => Some (g (k, v))
    | None => None
    end.
Proof.
  induction l as [|[k' v'] l IH]; cbn; [reflexivity|].
  destruct (String.eqb k k') eqn:E; [|exact IH].
  apply String.eqb_eq in E. now subst.
Qed.

(** X18. [generate_faux_true_params] sets [θ_true] to a new frame that
    holds, per parameter name, the mean of its prior in a single row (a
    model without parameter names gets the frame without rows and columns
    that [from_dict] makes of an empty dict); it leaves [θ], the other
    attributes and every older frame as they were.  A parameter name
    without a prior makes it raise [KeyError] with that name, and then
    nothing at all has changed. *)
Theorem generate_faux_true_params_outcome (cls : ModelClass) (s : @state num) :
  (NoDup (parameter_names (self s)) ->
   (forall k, In k (parameter_names (self s)) -> assoc k (prior cls) <> None) ->
   generate_faux_true_params cls s
   = (OK tt,
      {| heap := heap s ++
           [{| df_index := match parameter_names (self s) with
                           | [] => []
                           | _ :: _ => [0%Z]
                           end;
               df_columns := map (fun k => (k, [VFloat (prior_mean cls k)]))
                                 (parameter_names (self s)) |}];
         self := {| n_particles := n_particles (self s);
                    parameter_names := parameter_names (self s);
                    θ := θ (self s);
                    θ_true := Some (length (heap s)) |} |})) /\
  (forall before key after,
     parameter_names (self s) = before ++ key :: after ->
     (forall k, In k before -> assoc k (prior cls) <> None) ->
     assoc key (prior cls) = None ->
     generate_faux_true_params cls s = (Err (KeyError key), s)).
Proof.
  assert (Hstep : forall names, (forall k, In k names -> assoc k (prior cls) <> None) ->
            forall d s', for_each names (faux_true_key cls) d s'
            = (OK (fold_left (fun d k => assoc_set k [VFloat (prior_mean cls k)] d)
                     names d), s')).
  { intros names Hin d s'. apply for_each_pure. intros k a s1 Hk.
    unfold faux_true_key, prior_mean. specialize (Hin k Hk).
    destruct (assoc k (prior cls)); [reflexivity|contradiction]. }
  split.
  - intros Hnd Hin. unfold generate_faux_true_params, bind at 1, get_self.
    unfold bind at 1. rewrite (Hstep _ Hin).
    rewrite fold_assoc_set_fresh by (auto; intros k _ []). cbn [app].
    unfold bind at 1, lift.
    rewrite (one_row_from_dict (prior_mean cls) (parameter_names (self s))).
    reflexivity.
  - intros before key after Hnames Hbefore Hkey.
    unfold generate_faux_true_params, bind at 1, get_self. unfold bind at 1.
    rewrite Hnames, for_each_app. unfold bind at 1. rewrite (Hstep _ Hbefore).
    cbn [for_each]. unfold bind at 1, faux_true_key. rewrite Hkey. reflexivity.
Qed.

(** X19. With a prior that is a dict (distinct keys) and a sampler that
    returns as many values as it is asked for, the constructor stores the
    particle count and the keys of the prior as parameter names, and points
    [θ] to a new well-formed frame with one column of samples per parameter,
    in the order of the prior.  The frame has [n_particles] rows, unless
    the prior has no parameter: then it has none. *)
Theorem init_samples_particles
    (cls : ModelClass) (rvs : string -> nat -> list num) (n : nat) (s : @state num) :
  NoDup (keys (prior cls)) ->
  (forall key, length (rvs key n) = n) ->
  exists fθ,
    __init__ cls rvs n s
    = (OK tt,
       {| heap := heap s ++ [fθ];
          self := {| n_particles := n;
                     parameter_names := keys (prior cls);
                     θ := length (heap s);
                     θ_true := θ_true (self s) |} |}) /\
    df_columns fθ = map (fun k => (k, map VFloat (rvs k n))) (keys (prior cls)) /\
    nrows fθ = match prior cls with [] => 0 | _ :: _ => n end /\
    well_formed fθ.
Proof.
  intros Hnd Hrvs.
  assert (Hdict : forall s', for_each (keys (prior cls)) (sample_key cls rvs n) [] s'
            = (OK (map (fun k => (k, map VFloat (rvs k n))) (keys (prior cls))), s')).
  { intros s'.
    rewrite (@for_each_pure _ _ _ _ (fun k d => assoc_set k (map VFloat (rvs k n)) d)).
    - rewrite fold_assoc_set_fresh by (auto; intros k _ []). reflexivity.
    - intros k a s1 Hk. unfold sample_key.
      pose proof (assoc_key _ _ Hk) as Hin.
      destruct (assoc k (prior cls)); [reflexivity|contradiction]. }
  unfold __init__, bind at 1, get_self. unfold bind at 1, put_self.
  unfold bind at 1, _sample_from_prior. unfold bind at 1, get_self.
  cbn [self heap n_particles parameter_names]. unfold bind at 1. rewrite Hdict.
  unfold keys in *. destruct (prior cls) as [|[k0 d0] rest] eqn:Hprior.
  - cbn. eexists. split; [reflexivity|]. cbn. repeat split. intros c [].
  - assert (Hfrom : from_dict (map (fun k => (k, map VFloat (rvs k n)))
                                 (map fst ((k0, d0) :: rest)))
                    = OK {| df_index := map Z.of_nat (seq 0 n);
                            df_columns := map (fun k => (k, map (@VFloat num) (rvs k n)))
                                              (map fst ((k0, d0) :: rest)) |}).
    { unfold from_dict. cbn [map fst]. rewrite length_map, Hrvs.
      replace (forallb _ _) with true; [reflexivity|].
      symmetry. apply forallb_forall. intros c Hc. apply Nat.eqb_eq.
      change ((k0, map (@VFloat num) (rvs k0 n))
               :: map (fun k => (k, map (@VFloat num) (rvs k n))) (map fst rest))
        with (map (fun k => (k, map (@VFloat num) (rvs k n))) (map fst ((k0, d0) :: rest)))
        in Hc.
      apply in_map_iff in Hc as (k & <- & _). cbn. now rewrite length_map. }
    unfold bind, lift, alloc. rewrite Hfrom.
    eexists. split; [reflexivity|]. cbn [df_columns nrows df_index].
    split; [reflexivity|]. unfold well_formed, nrows. cbn [df_index df_columns].
    split; [now rewrite length_map, length_seq|].
    intros c Hc.
    change ((k0, map (@VFloat num) (rvs k0 n))
             :: map (fun k => (k, map (@VFloat num) (rvs k n))) (map fst rest))
      with (map (fun k => (k, map (@VFloat num) (rvs k n))) (map fst ((k0, d0) :: rest)))
      in Hc.
    apply in_map_iff in Hc as (k & <- & _).
    cbn [snd]. now rewrite !length_map, length_seq.
Qed.

(** X20. The point estimate is a new frame of one row with the column
    names of [θ], in the same order; the cell of a column is the median of
    that column of [θ].  It can fail only on a dangling [θ]. *)
Theorem point_estimate_shape (s : @state num) (fθ : DataFrame) :
  nth_error (heap s) (θ (self s)) = Some fθ ->
  exists estimate,
    get_θ_point_estimate s
    = (OK (length (heap s)), {| heap := heap s ++ [estimate]; self := self s |}) /\
    nrows estimate = 1 /\
    keys (df_columns estimate) = keys (df_columns fθ) /\
    well_formed estimate /\
    forall key c, assoc key (df_columns fθ) = Some c ->
      assoc key (df_columns estimate) = Some [VFloat (median (map to_float c))].
Proof.
  intros Hθ. unfold get_θ_point_estimate, bind, get_self, load, alloc. rewrite Hθ.
  eexists. split; [reflexivity|]. cbn [nrows df_index df_columns length].
  split; [reflexivity|]. split; [|split].
  - unfold keys. rewrite !map_map. reflexivity.
  - intros c Hc. rewrite map_map in Hc. apply in_map_iff in Hc as (c0 & <- & _).
    reflexivity.
  - intros key c Hc. rewrite map_map. cbn [fst snd].
    rewrite (assoc_map_snd (fun c => [VFloat (median (map to_float (snd c)))])).
    now rewrite Hc.
Qed.

End WithFloats.

Lemma log_likelihood_sums_log_probabilities_witness :
  exists ll, fst (log_likelihood cls0 0 1 s0) = OK ll /\ length ll = 2.
Proof.
  destruct (@log_likelihood_sums_log_probabilities Z Z_ops cls0 s0 0 1
              particles0 trials0 [VInt 1%Z; VInt 0%Z]
              eq_refl eq_refl eq_refl eq_refl (fun d => eq_refl) eq_refl)
    as (ll & H1 & H2 & _).
  exists ll. split; assumption.
Defined.

Lemma log_prior_pdf_sums_log_densities_witness :
  fst (log_prior_pdf cls0 0 s0) = OK [(-5)%Z; (-7)%Z].
Proof.
  rewrite (@log_prior_pdf_sums_log_densities Z Z_ops cls0 s0 0 particles0 eq_refl).
  - reflexivity.
  - intros c [<-|[]]. reflexivity.
  - repeat constructor. intros [].
  - intros key [<-|[]]. reflexivity.
Defined.

Lemma log_prior_pdf_missing_key_witness :
  fst (log_prior_pdf cls0 0 s_unknown_parameter) = Err (KeyError "α").
Proof.
  apply (@log_prior_pdf_missing_key Z Z_ops cls0 s_unknown_parameter 0 particles0
           ["logk"] [] "α" eq_refl).
  - intros c [<-|[]]. reflexivity.
  - repeat constructor. intros [].
  - reflexivity.
  - intros k [<-|[]]. reflexivity.
  - reflexivity.
Defined.

Lemma generate_faux_true_params_outcome_witness :
  exists frame,
    generate_faux_true_params cls0 s0
    = (OK tt, {| heap := heap s0 ++ [frame];
                 self := {| n_particles := 2; parameter_names := ["logk"];
                            θ := 0; θ_true := Some 3 |} |}) /\
    df_index frame = [0%Z] /\
    df_columns frame = [("logk", [VFloat 0%Z])].
Proof.
  eexists. split.
  - apply (proj1 (@generate_faux_true_params_outcome Z Z_ops cls0 s0)).
    + repeat constructor. intros [].
    + intros k [<-|[]]. discriminate.
  - split; reflexivity.
Defined.

Lemma init_samples_particles_witness :
  exists fθ,
    fst (__init__ cls0 rvs0 2 s0) = OK tt /\
    nth_error (heap (snd (__init__ cls0 rvs0 2 s0))) 3 = Some fθ /\
    nrows fθ = 2 /\ well_formed fθ.
Proof.
  destruct (@init_samples_particles Z cls0 rvs0 2 s0) as (fθ & H & _ & Hn & Hwf).
  - repeat constructor. intros [].
  - intros key. apply repeat_length.
  - exists fθ. rewrite H. repeat split; assumption.
Defined.

Lemma point_estimate_shape_witness :
  exists estimate,
    get_θ_point_estimate s0
    = (OK 3, {| heap := heap s0 ++ [estimate]; self := self s0 |}) /\
    nrows estimate = 1.
Proof.
  destruct (@point_estimate_shape Z Z_ops s0 particles0 eq_refl)
    as (estimate & H1 & H2 & _).
  exists estimate. split; assumption.
Defined.

End ModelMore.

(** * Properties of [darc/delayed_and_risky/models.py] *)

Module DelayedAndRiskyFacts.

Import Model DelayedAndRisky ModelVectors.
Import ModelFacts.

Section WithFloats.

Context {num : Type} {F : FloatOps num} {A : FloatArith num}.

(** ** Broadcasting *)

Lemma nth_zip_with_default (f : num -> num -> num) a b i :
  i < length a -> i < length b ->
  nth i (zip_with f a b) fzero = f (nth i a fzero) (nth i b fzero).
Proof.
  revert b i. induction a as [|x a IH]; intros [|y b] [|i] Ha Hb; cbn in *; try lia; auto.
  apply IH; lia.
Qed.

Lemma nth_map_default (g : num -> num) a i :
  i < length a -> nth i (map g a) fzero = g (nth i a fzero).
Proof.
  intros Hi. rewrite (nth_indep _ fzero (g fzero)) by now rewrite length_map.
  apply map_nth.
Qed.

Lemma bnth_full L (c : list num) i : length c = L -> i < L -> bnth c i = nth i c fzero.
Proof.
  intros Hc Hi. unfold bnth. destruct (Nat.eqb (length c) 1) eqn:E; [|reflexivity].
  apply Nat.eqb_eq in E. f_equal. lia.
Qed.

Lemma bnth_index L (a : list num) i :
  shaped L a -> i < L -> (if Nat.eqb (length a) 1 then 0 else i) < length a.
Proof.
  intros [H|H] Hi; destruct (Nat.eqb (length a) 1) eqn:E;
    first [apply Nat.eqb_eq in E | apply Nat.eqb_neq in E]; lia.
Qed.

Lemma bnth_map L (g : num -> num) a i :
  shaped L a -> i < L -> bnth (map g a) i = g (bnth a i).
Proof.
  intros Ha Hi. unfold bnth. rewrite length_map.
  apply nth_map_default. eapply bnth_index; eauto.
Qed.

Lemma shaped_map L (g : num -> num) a : shaped L a -> shaped L (map g a).
Proof. unfold shaped. now rewrite length_map. Qed.

(** Two arrays that broadcast to [L], one of them of length [L], combine
    entry by entry into an array of length [L]. *)
Lemma broadcast2_spec (f : num -> num -> num) a b L :
  shaped L a -> shaped L b -> length a = L \/ length b = L ->
  exists c, broadcast2 f a b = OK c /\ length c = L /\
            forall i, i < L -> nth i c fzero = f (bnth a i) (bnth b i).
Proof.
  intros Ha Hb Hfull. unfold broadcast2, shaped in *.
  destruct (Nat.eqb (length a) (length b)) eqn:E.
  - apply Nat.eqb_eq in E. assert (HaL : length a = L) by (destruct Hfull; lia).
    eexists. split; [reflexivity|]. split; [rewrite length_zip_with; lia|].
    intros i Hi. rewrite nth_zip_with_default by lia.
    now rewrite (@bnth_full L a i), (@bnth_full L b i) by lia.
  - apply Nat.eqb_neq in E.
    destruct a as [|x [|x' a']].
    + (* a is empty: b has length 1 *)
      cbn [length] in *. assert (Hb1 : length b = 1) by (destruct Ha, Hb, Hfull; lia).
      destruct b as [|y [|y' b']]; cbn [length] in Hb1; try lia.
      eexists. split; [reflexivity|]. cbn.
      split; [destruct Ha, Hfull; cbn in *; lia|].
      intros i Hi. destruct Ha, Hfull; cbn in *; lia.
    + (* a has length 1 *)
      cbn [length] in *. assert (HbL : length b = L) by (destruct Hb, Hfull; lia).
      eexists. split; [reflexivity|]. split; [now rewrite length_map|].
      intros i Hi. rewrite nth_map_default by lia. unfold bnth at 1. cbn.
      f_equal. symmetry. apply (@bnth_full L); auto.
    + (* a has length 2 or more: b has length 1 *)
      cbn [length] in *.
      assert (Hb1 : length b = 1) by (destruct Ha, Hb, Hfull; lia).
      destruct b as [|y [|y' b']]; cbn [length] in Hb1; try lia.
      assert (HaL : S (S (length a')) = L) by (destruct Ha; lia).
      eexists. split; [reflexivity|]. split; [now rewrite length_map|].
      intros i Hi. rewrite (nth_map_default (fun x => f x y)) by (cbn; lia).
      unfold bnth. cbn [length Nat.eqb nth]. reflexivity.
Qed.

Lemma broadcast2_incompatible (f : num -> num -> num) a b :
  compatible (length a) (length b) = false ->
  broadcast2 f a b = Err (ValueError "operands could not be broadcast together").
Proof.
  unfold compatible, broadcast2. rewrite !orb_false_iff. intros [[H1 H2] H3].
  rewrite H1. destruct a as [|x [|x' a']], b as [|y [|y' b']];
    cbn in *; try discriminate; reflexivity.
Qed.

Lemma compatible_shapes P T :
  compatible P T = true ->
  (P = broadcast_length P T \/ P = 1) /\
  (T = broadcast_length P T \/ T = 1) /\
  (P = broadcast_length P T \/ T = broadcast_length P T).
Proof.
  unfold compatible, broadcast_length. rewrite !orb_true_iff, !Nat.eqb_eq.
  destruct (Nat.eqb P 1) eqn:E;
    [apply Nat.eqb_eq in E|apply Nat.eqb_neq in E]; lia.
Qed.

(** ** Columns as arrays *)

Lemma values_column (f : @DataFrame num) key :
  well_formed f -> assoc key (df_columns f) <> None ->
  exists a, values f key = OK a /\ length a = nrows f /\
            forall i, bnth a i = cell f key i.
Proof.
  intros Hwf Hkey. unfold values, getitem, cell.
  destruct (assoc key (df_columns f)) as [c|] eqn:E; [|contradiction].
  assert (Hlen : length c = nrows f).
  { apply (Hwf (key, c)). clear - E.
    induction (df_columns f) as [|[k v] l IH]; cbn in *; [discriminate|].
    destruct (String.eqb key k) eqn:Ek; [|right; now apply IH].
    apply String.eqb_eq in Ek. injection E as ->. subst. now left. }
  eexists. split; [reflexivity|]. split; [now rewrite length_map|].
  intros i. unfold bnth. rewrite length_map, Hlen.
  change fzero with (to_float (VFloat fzero)) at 1. apply map_nth.
Qed.

(** ** The discount functions under broadcasting *)

Section Shapes.

Variables θ data : @DataFrame num.
Hypothesis θ_well_formed : well_formed θ.
Hypothesis data_well_formed : well_formed data.
Hypothesis θ_columns : has_columns θ ["logk"; "logh"].
Hypothesis shapes : compatible (nrows θ) (nrows data) = true.

Let L := broadcast_length (nrows θ) (nrows data).

Lemma shaped_θ (a : list num) : length a = nrows θ -> shaped L a.
Proof using shapes.
  intros Ha. destruct (compatible_shapes _ _ shapes) as (H & _ & _).
  unfold shaped, L. rewrite Ha. intuition.
Qed.

Lemma shaped_data (a : list num) : length a = nrows data -> shaped L a.
Proof using shapes.
  intros Ha. destruct (compatible_shapes _ _ shapes) as (_ & H & _).
  unfold shaped, L. rewrite Ha. intuition.
Qed.

Lemma time_discount_spec delay :
  length delay = nrows data ->
  exists td, _time_discount_func delay θ = OK td /\ length td = L /\
    forall i, i < L ->
      nth i td fzero
      = fdiv fone (fadd fone (fmul (fexp (cell θ "logk" i)) (bnth delay i))).
Proof using θ_well_formed θ_columns shapes.
  intros Hdelay. unfold _time_discount_func.
  destruct (@values_column θ "logk" θ_well_formed) as (logk & -> & Hlen & Hcell);
    [apply θ_columns; cbn; auto|].
  cbn [rbind].
  destruct (@broadcast2_spec fmul (map fexp logk) delay L) as (c & -> & Hc & Hnth).
  - apply shaped_map, shaped_θ, Hlen.
  - apply shaped_data, Hdelay.
  - rewrite length_map, Hlen, Hdelay.
    destruct (compatible_shapes _ _ shapes) as (_ & _ & H). unfold L. intuition.
  - cbn [rbind]. eexists. split; [reflexivity|]. split; [now rewrite length_map|].
    intros i Hi. rewrite nth_map_default by lia. rewrite (Hnth i Hi).
    rewrite (@bnth_map L) by (auto; apply shaped_θ, Hlen). now rewrite Hcell.
Qed.

Lemma odds_discount_spec probabilities :
  length probabilities = nrows data ->
  exists od, _odds_discount_func probabilities θ = OK od /\ length od = L /\
    forall i, i < L ->
      nth i od fzero
      = fdiv fone (fadd fone (fmul (fexp (cell θ "logh" i))
                                (fdiv (fsub fone (bnth probabilities i))
                                      (bnth probabilities i)))).
Proof using θ_well_formed θ_columns shapes.
  intros Hp. unfold _odds_discount_func, prob_to_odds_against.
  destruct (@values_column θ "logh" θ_well_formed) as (logh & -> & Hlen & Hcell);
    [apply θ_columns; cbn; auto|].
  cbn [rbind].
  destruct (@broadcast2_spec fmul (map fexp logh)
              (map (fun p => fdiv (fsub fone p) p) probabilities) L)
    as (c & -> & Hc & Hnth).
  - apply shaped_map, shaped_θ, Hlen.
  - apply shaped_map, shaped_data, Hp.
  - rewrite !length_map, Hlen, Hp.
    destruct (compatible_shapes _ _ shapes) as (_ & _ & H). unfold L. intuition.
  - cbn [rbind]. eexists. split; [reflexivity|]. split; [now rewrite length_map|].
    intros i Hi. rewrite nth_map_default by lia. rewrite (Hnth i Hi).
    rewrite (@bnth_map L fexp) by (auto; apply shaped_θ, Hlen).
    rewrite (@bnth_map L (fun p => fdiv (fsub fone p) p))
      by (auto; apply shaped_data, Hp).
    now rewrite Hcell.
Qed.

Lemma prospect_value_spec r d p :
  has_columns data [r; d; p] ->
  exists v, prospect_value θ data r d p = OK v /\ length v = L /\
    forall i, i < L ->
      nth i v fzero
      = discounted_value (cell θ "logk" i) (cell θ "logh" i)
          (cell data r i) (cell data d i) (cell data p i).
Proof using θ_well_formed data_well_formed θ_columns shapes.
  intros Hcols. unfold prospect_value.
  destruct (@values_column data r data_well_formed) as (R & -> & HR & HcR);
    [apply Hcols; cbn; auto|].
  destruct (@values_column data d data_well_formed) as (D & -> & HD & HcD);
    [apply Hcols; cbn; auto|].
  destruct (@values_column data p data_well_formed) as (Pr & -> & HP & HcP);
    [apply Hcols; cbn; auto|].
  cbn [rbind].
  destruct (time_discount_spec D HD) as (td & -> & Htd & Htd_nth). cbn [rbind].
  destruct (@broadcast2_spec fmul R td L) as (c & -> & Hc & Hc_nth);
    [apply shaped_data, HR|now left|now right|].
  cbn [rbind].
  destruct (odds_discount_spec Pr HP) as (od & -> & Hod & Hod_nth). cbn [rbind].
  destruct (@broadcast2_spec fmul c od L) as (v & -> & Hv & Hv_nth);
    [now left|now left|now left|].
  eexists. split; [reflexivity|]. split; [exact Hv|].
  intros i Hi. rewrite (Hv_nth i Hi).
  rewrite (@bnth_full L c i Hc Hi), (@bnth_full L od i Hod Hi).
  rewrite (Hc_nth i Hi), (@bnth_full L td i Htd Hi), (Htd_nth i Hi), (Hod_nth i Hi).
  unfold discounted_value. now rewrite HcR, HcD, HcP.
Qed.

End Shapes.

(** X21. [calc_decision_variable] works row-wise under numpy broadcasting.
    On well-formed frames that have the columns it reads, and whose row
    counts are equal or one of them is 1, it returns one decision variable
    per broadcast row: entry [i] is the discounted value of prospect B
    minus that of prospect A for particle [i] and design [i], a frame of
    one row being read at its only row.  With any other pair of row counts
    it raises numpy's broadcasting [ValueError]. *)
Theorem calc_decision_variable_broadcasts (θ data : @DataFrame num) :
  well_formed θ ->
  well_formed data ->
  has_columns θ ["logk"; "logh"] ->
  has_columns data ["RA"; "DA"; "PA"; "RB"; "DB"; "PB"] ->
  (compatible (nrows θ) (nrows data) = true ->
   exists v,
     calc_decision_variable θ data = OK v /\
     length v = broadcast_length (nrows θ) (nrows data) /\
     forall i, i < length v ->
       nth i v fzero
       = decision_variable_at (cell θ "logk" i) (cell θ "logh" i)
           (cell data "RA" i) (cell data "DA" i) (cell data "PA" i)
           (cell data "RB" i) (cell data "DB" i) (cell data "PB" i)) /\
  (compatible (nrows θ) (nrows data) = false ->
   calc_decision_variable θ data
   = Err (ValueError "operands could not be broadcast together")).
Proof.
  intros Hθ Hdata Hθcols Hcols. split.
  - intros Hshapes. unfold calc_decision_variable.
    destruct (@prospect_value_spec θ data Hθ Hdata Hθcols Hshapes "RA" "DA" "PA")
      as (VA & -> & HVA & HVA_nth).
    { intros key Hk. apply Hcols. cbn in *. intuition. }
    destruct (@prospect_value_spec θ data Hθ Hdata Hθcols Hshapes "RB" "DB" "PB")
      as (VB & -> & HVB & HVB_nth).
    { intros key Hk. apply Hcols. cbn in *. intuition. }
    cbn [rbind].
    destruct (@broadcast2_spec fsub VB VA (broadcast_length (nrows θ) (nrows data)))
      as (v & -> & Hv & Hv_nth); [now left|now left|now left|].
    exists v. split; [reflexivity|]. split; [exact Hv|].
    intros i Hi. rewrite Hv in Hi. rewrite (Hv_nth i Hi).
    rewrite (@bnth_full _ VB i HVB Hi), (@bnth_full _ VA i HVA Hi).
    rewrite (HVB_nth i Hi), (HVA_nth i Hi).
    reflexivity.
  - intros Hshapes. unfold calc_decision_variable, prospect_value.
    destruct (@values_column data "RA" Hdata) as (RA & -> & _ & _);
      [apply Hcols; cbn; auto|].
    destruct (@values_column data "DA" Hdata) as (DA & -> & HDA & _);
      [apply Hcols; cbn; auto|].
    cbn [rbind]. unfold _time_discount_func.
    destruct (@values_column θ "logk" Hθ) as (logk & -> & Hlogk & _);
      [apply Hθcols; cbn; auto|].
    cbn [rbind]. rewrite broadcast2_incompatible; [reflexivity|].
    now rewrite length_map, Hlogk, HDA.
Qed.

End WithFloats.

(** Two particles against one design: one decision variable per particle. *)
Lemma calc_decision_variable_broadcasts_witness :
  exists v, calc_decision_variable particles_kh one_design = OK v /\ length v = 2.
Proof.
  destruct (@calc_decision_variable_broadcasts Z Z_ops Z_arith particles_kh one_design)
    as [H _].
  - intros c [<-|[<-|[]]]; reflexivity.
  - intros c [<-|[<-|[<-|[<-|[<-|[<-|[]]]]]]]; reflexivity.
  - intros key [<-|[<-|[]]]; discriminate.
  - intros key [<-|[<-|[<-|[<-|[<-|[<-|[]]]]]]]; discriminate.
  - destruct (H eq_refl) as (v & H1 & H2 & _). exists v. split; assumption.
Defined.

End DelayedAndRiskyFacts.
